(** * jquery-loading: a shallow embedding of [dist/jquery.loading.js]

    The plugin is a small stateful object living in a browser page.  The
    embedding threads an explicit page state ([world]) through a state and
    exception monad; every method of [Loading.prototype], the constructor,
    the [$.fn.loading] entry point and the [:loading] selector are
    translated line by line.

    The environment the plugin talks to (jQuery and the DOM) is modelled as
    far as the plugin observes it:
    - [$.extend] copies the entries of its sources from left to right and
      skips entries whose value is [undefined];
    - [$.data] is a finite map from elements to plugin objects;
    - [.on]/[.trigger] keep handlers in registration order, a triggered
      custom event runs the handlers of the element and then those of its
      ancestors, and an exception of a handler leaves the dispatch;
    - [.hide()] takes effect at once; [.fadeIn(d)]/[.fadeOut(d)] go through
      the element's effects queue: a fade-in displays the element when it
      starts, a fade-out hides it when it ends (effects are on,
      [jQuery.fx.off] being [false]).  An effect does not end by the
      passing of time alone: it ends when the effects timer
      ([jQuery.fx.tick], nominally every 13 ms) fires and finds that the
      duration has passed; the effects queued behind it start then;
    - [.is(':visible')] holds of an element that is displayed and has a
      box that is not empty ([offsetWidth] or [offsetHeight] positive);
      whether the box of an overlay is empty, with its content and the
      geometry [resize] gave it, is the answer of the page's layout,
      [layout].
    Time is discrete (milliseconds): [elapse] lets time pass, [fx_tick] is
    a tick of the effects timer.  When the timer fires is the browser's
    business (the timer is shared by all the effects of the page, and
    its ticks fall anywhere relative to the start of one effect): the
    embedding fixes no schedule, and the statements say at which ticks
    they hold.  The behaviours of jQuery are those of its versions 1.8
    to 2.x.

    Functions held in a configuration range over the few shapes of
    [callback]; what the embedding does not describe (a jQuery object
    enumerated by [$.extend], a plain object in the place of the target
    element, engine-specific members of [Object.prototype]) ends in the
    outcome [Throw Unmodelled]. *)

From stdpp Require Import base strings list gmap fin_maps pretty.
From Stdlib Require Import ZArith.

Local Open Scope Z_scope.
Local Open Scope nat_scope.

(** ** JavaScript values *)

(** Functions stored in a configuration.  The first two shapes are the
    default [onStart] and [onStop] hooks of the source; [CbNoop] is the
    default [onClick]; the others stand for hooks supplied by the page:
    [CbShow]/[CbHide] call [loading.overlay.show()]/[.hide()] and [CbLog]
    records its argument. *)
Inductive callback :=
| CbFadeIn (ms : nat)     (* function(loading) { loading.overlay.fadeIn(ms); } *)
| CbFadeOut (ms : nat)    (* function(loading) { loading.overlay.fadeOut(ms); } *)
| CbNoop                  (* function() {} *)
| CbShow
| CbHide
| CbLog (tag : string).

Inductive value :=
| VUndefined
| VNull
| VBool (b : bool)
| VNum (z : Z)
| VStr (s : string)
| VFun (f : callback)
| VRef (r : nat).         (* any other object, held by reference *)

Global Instance callback_eq_dec : EqDecision callback.
Proof. solve_decision. Defined.
Global Instance value_eq_dec : EqDecision value.
Proof. solve_decision. Defined.

(** [ToBoolean] *)
Definition truthy (v : value) : bool :=
  match v with
  | VUndefined | VNull => false
  | VBool b => b
  | VNum z => negb (Z.eqb z 0)
  | VStr s => negb (String.eqb s "")
  | VFun _ | VRef _ => true
  end.

(** A plain object used as a record of options. *)
Abbreviation object := (gmap string value).

(** Property read [o[k]]: a missing key reads as [undefined]. *)
Definition prop (o : object) (k : string) : value :=
  default VUndefined (o !! k).

(** [$.extend(target, src)]: every enumerable entry of [src] is copied
    over [target], except the entries whose value is [undefined]. *)
Definition extend (target src : object) : object :=
  filter (λ kv, kv.2 ≠ VUndefined) src ∪ target.

(** DOM elements of the page the plugin can be attached to. *)
Abbreviation elem := nat.
(** Overlay nodes created by the plugin, and plugin objects. *)
Abbreviation node_id := nat.
Abbreviation inst_id := nat.

(** Arguments of [$.fn.loading] and of the methods it dispatches to. *)
Inductive arg :=
| AUndefined
| AStr (s : string)
| AObj (o : object)
| AElem (e : elem).       (* a jQuery object wrapping one element *)

(** Entries of a string seen as an object: [for (name in "ab")] yields the
    indices "0", "1" with the characters as values. *)
Definition string_entries (s : string) : object :=
  list_to_map (imap (λ i c, (pretty i, VStr (String c EmptyString)))
                    (String.list_ascii_of_string s)).

(** The entries [$.extend] enumerates in one of its source arguments;
    [None] where the enumeration is outside the model (a jQuery object). *)
Definition entries (a : arg) : option object :=
  match a with
  | AUndefined => Some ∅
  | AStr s => Some (string_entries s)
  | AObj o => Some o
  | AElem _ => None
  end.

(** ** Effects queue of an overlay *)

Inductive effect := FadeIn | FadeOut.

Global Instance effect_eq_dec : EqDecision effect.
Proof. solve_decision. Defined.

(** Whether an effect has anything to animate: showing a displayed element
    or hiding a hidden one is empty and finishes as it starts. *)
Definition animates (k : effect) (displayed : bool) : bool :=
  match k with
  | FadeIn => negb displayed
  | FadeOut => displayed
  end.

(** Display state when the effect has run to its end. *)
Definition final (k : effect) : bool :=
  match k with
  | FadeIn => true
  | FadeOut => false
  end.

(** [launch d q]: nothing is running, the element's display state is [d]
    and [q] waits in the queue; start the effects of [q] in order.  An
    effect that has nothing to animate, or lasts no time, ends as it
    starts, and the next one is started; the first other one is the
    running effect, at the head of the queue returned, with the time it
    has still to run. *)
Fixpoint launch (d : bool) (q : list (effect * nat))
  : bool * list (effect * nat) :=
  match q with
  | [] => (d, [])
  | (k, ms) :: q' =>
      if animates k d then
        match ms with
        | 0 => launch (final k) q'
        | _ => (true, (k, ms) :: q')
        end
      else launch d q'
  end.

(** [.fadeIn(ms)] / [.fadeOut(ms)]: queued behind a running effect,
    started at once otherwise. *)
Definition enqueue (k : effect) (ms : nat) (d : bool) (q : list (effect * nat))
  : bool * list (effect * nat) :=
  match q with
  | [] => launch d [(k, ms)]
  | _ => (d, q ++ [(k, ms)])
  end.

(** [t] milliseconds pass: the running effect has that much less to run.
    Nothing ends. *)
Definition pass (t : nat) (q : list (effect * nat)) : list (effect * nat) :=
  match q with
  | [] => []
  | (k, ms) :: q' => (k, ms - t) :: q'
  end.

(** The effects timer fires: a running effect whose time has passed ends,
    and the effects queued behind it are started. *)
Definition tick (d : bool) (q : list (effect * nat))
  : bool * list (effect * nat) :=
  match q with
  | (k, 0) :: q' => launch (final k) q'
  | _ => (d, q)
  end.

(** ** Page state *)

Inductive css_position := Fixed | Absolute.

(** A CSS length as the plugin sets it: a number of pixels or ['100%']. *)
Inductive css_length := Px (z : Z) | Full.

Record geometry := Geometry {
  top : Z;
  left : Z;
  width : css_length;
  height : css_length
}.

(** The three custom events, triggered on the target element. *)
Inductive notification := LoadingStart | LoadingStop | LoadingClick.

Global Instance notification_eq_dec : EqDecision notification.
Proof. solve_decision. Defined.

(** Second parameter of a handler of a notification. *)
Inductive payload :=
| PInst (i : inst_id)     (* the plugin object *)
| PNode (n : node_id).    (* an overlay DOM element *)

Global Instance payload_eq_dec : EqDecision payload.
Proof. solve_decision. Defined.

(** Handlers bound on an overlay's [click]. *)
Inductive click_handler :=
| ClickStop (self : inst_id)      (* function() { self.stop(); } *)
| ClickNotify (self : inst_id).   (* function() { self.element.trigger('loading.click', this); } *)

(** Handlers bound on a target element for a notification. *)
Inductive handler :=
| HSettings (self : inst_id) (hook : string)
    (* function(event, loading) { self.settings[hook](loading); } *)
| HUser (f : callback).   (* bound by the page *)

(** The overlay element: the styles and attributes the plugin sets.
    Z-index, opacity and the table layout of the content are constant
    presentation and are left out. *)
Record node := Node {
  position : css_position;
  theme : value;              (* class loading-theme-<theme> *)
  message : value;            (* content of .loading-overlay-content *)
  html_id : option string;
  box : option geometry;
  displayed : bool;           (* false: display none *)
  fx : list (effect * nat);   (* effects queue, head running *)
  click : list click_handler
}.

(** The plugin object: [this.element], [this.settings], [this.overlay]
    ([this.overlayContent] is the content child of the same node).
    [element] is [None] when the stored value is no jQuery object. *)
Record instance := Instance {
  element : option elem;
  settings : object;
  overlay : option node_id
}.

(** What the plugin reads of a target element. *)
Record el_info := ElInfo {
  is_body : bool;
  attr_id : option string;
  offset_top : Z;
  offset_left : Z;
  outerWidth : Z;
  outerHeight : Z;
  ancestors : list elem       (* nearest first *)
}.

Record world := World {
  page : elem → el_info;
  layout : node_id → option geometry → bool;  (* has the overlay a box *)
  defaults : object;                        (* Loading.defaults *)
  data : gmap elem inst_id;                   (* $.data(el, 'jquery-loading') *)
  heap : list instance;                       (* plugin objects, by identity *)
  nodes : list node;                          (* overlay elements, by identity *)
  body : list node_id;                        (* overlays in document order *)
  bound : list (elem * notification * handler);
  on_resize : list inst_id;                   (* $(window).on('resize', ...) *)
  on_ready : list inst_id;                    (* $(document).on('ready', ...) *)
  fired : list (elem * notification * payload);   (* notifications, oldest first *)
  log : list (string * payload)               (* what [CbLog] hooks saw *)
}.

(** Field updates. *)
Definition with_defaults (d : object) (w : world) : world :=
  World (page w) (layout w) d (data w) (heap w) (nodes w) (body w) (bound w)
        (on_resize w) (on_ready w) (fired w) (log w).
Definition with_data (d : gmap elem inst_id) (w : world) : world :=
  World (page w) (layout w) (defaults w) d (heap w) (nodes w) (body w) (bound w)
        (on_resize w) (on_ready w) (fired w) (log w).
Definition with_heap (h : list instance) (w : world) : world :=
  World (page w) (layout w) (defaults w) (data w) h (nodes w) (body w) (bound w)
        (on_resize w) (on_ready w) (fired w) (log w).
Definition with_nodes (ns : list node) (w : world) : world :=
  World (page w) (layout w) (defaults w) (data w) (heap w) ns (body w) (bound w)
        (on_resize w) (on_ready w) (fired w) (log w).
Definition with_body (b : list node_id) (w : world) : world :=
  World (page w) (layout w) (defaults w) (data w) (heap w) (nodes w) b (bound w)
        (on_resize w) (on_ready w) (fired w) (log w).
Definition with_bound (b : list (elem * notification * handler)) (w : world) : world :=
  World (page w) (layout w) (defaults w) (data w) (heap w) (nodes w) (body w) b
        (on_resize w) (on_ready w) (fired w) (log w).
Definition with_on_resize (l : list inst_id) (w : world) : world :=
  World (page w) (layout w) (defaults w) (data w) (heap w) (nodes w) (body w) (bound w)
        l (on_ready w) (fired w) (log w).
Definition with_on_ready (l : list inst_id) (w : world) : world :=
  World (page w) (layout w) (defaults w) (data w) (heap w) (nodes w) (body w) (bound w)
        (on_resize w) l (fired w) (log w).
Definition with_fired (l : list (elem * notification * payload)) (w : world) : world :=
  World (page w) (layout w) (defaults w) (data w) (heap w) (nodes w) (body w) (bound w)
        (on_resize w) (on_ready w) l (log w).
Definition with_log (l : list (string * payload)) (w : world) : world :=
  World (page w) (layout w) (defaults w) (data w) (heap w) (nodes w) (body w) (bound w)
        (on_resize w) (on_ready w) (fired w) l.
Definition with_layout (l : node_id → option geometry → bool) (w : world) : world :=
  World (page w) l (defaults w) (data w) (heap w) (nodes w) (body w) (bound w)
        (on_resize w) (on_ready w) (fired w) (log w).
Definition with_page (p : elem → el_info) (w : world) : world :=
  World p (layout w) (defaults w) (data w) (heap w) (nodes w) (body w) (bound w)
        (on_resize w) (on_ready w) (fired w) (log w).

Definition with_box (g : geometry) (n : node) : node :=
  Node (position n) (theme n) (message n) (html_id n) (Some g)
       (displayed n) (fx n) (click n).
Definition with_html_id (i : string) (n : node) : node :=
  Node (position n) (theme n) (message n) (Some i) (box n)
       (displayed n) (fx n) (click n).
Definition with_fx (s : bool * list (effect * nat)) (n : node) : node :=
  Node (position n) (theme n) (message n) (html_id n) (box n)
       s.1 s.2 (click n).
Definition with_click (c : list click_handler) (n : node) : node :=
  Node (position n) (theme n) (message n) (html_id n) (box n)
       (displayed n) (fx n) c.

Definition with_element (e : option elem) (i : instance) : instance :=
  Instance e (settings i) (overlay i).
Definition with_settings (s : object) (i : instance) : instance :=
  Instance (element i) s (overlay i).
Definition with_overlay (n : node_id) (i : instance) : instance :=
  Instance (element i) (settings i) (Some n).

(** ** The monad: page state, JavaScript exceptions *)

Inductive error :=
| TypeError       (* calling what is no function, reading a property of undefined *)
| Unmodelled.     (* behaviour the embedding does not describe *)

Inductive outcome (A : Type) :=
| Ret (a : A)
| Throw (e : error).
Arguments Ret {A} a.
Arguments Throw {A} e.

(** A computation returns or throws, and leaves a page state either way:
    an exception does not undo what was done before it. *)
Definition M (A : Type) : Type := world → outcome A * world.

Definition ret {A} (a : A) : M A := λ w, (Ret a, w).
Definition throw {A} (e : error) : M A := λ w, (Throw e, w).
Definition bind {A B} (m : M A) (k : A → M B) : M B :=
  λ w, match m w with
       | (Ret a, w') => k a w'
       | (Throw e, w') => (Throw e, w')
       end.
Definition gets {A} (f : world → A) : M A := λ w, (Ret (f w), w).
Definition modify (f : world → world) : M unit := λ w, (Ret tt, f w).

Notation "'let!' x ':=' m 'in' k" := (bind m (λ x, k))
  (at level 10, x name, m at level 100, k at level 200).
Notation "m '>>' k" := (bind m (λ _, k))
  (at level 90, right associativity).

Fixpoint for_each {A} (l : list A) (f : A → M unit) : M unit :=
  match l with
  | [] => ret tt
  | x :: l' => f x >> for_each l' f
  end.

(** Reading an option as JavaScript does: [None] is where the source
    calls a method on a value that has none. *)
Definition must {A} (o : option A) : M A :=
  match o with
  | Some a => ret a
  | None => throw TypeError
  end.

(** Dereferencing a plugin object or an overlay; an identity that the page
    state does not hold is outside the model. *)
Definition get_inst (self : inst_id) : M instance :=
  let! h := gets heap in
  match h !! self with
  | Some i => ret i
  | None => throw Unmodelled
  end.

Definition get_node (n : node_id) : M node :=
  let! ns := gets nodes in
  match ns !! n with
  | Some x => ret x
  | None => throw Unmodelled
  end.

Definition update_inst (self : inst_id) (f : instance → instance) : M unit :=
  let! i := get_inst self in
  modify (λ w, with_heap (<[self := f i]> (heap w)) w).

Definition update_node (n : node_id) (f : node → node) : M unit :=
  let! x := get_node n in
  modify (λ w, with_nodes (<[n := f x]> (nodes w)) w).

(** ** jQuery as the plugin uses it *)

(** [this.element.<method>(...)]: the stored value must be a jQuery object. *)
Definition jq (self : inst_id) : M elem :=
  let! i := get_inst self in must (element i).

(** [this.overlay.<method>(...)] *)
Definition the_overlay (self : inst_id) : M node_id :=
  let! i := get_inst self in must (overlay i).

(** [loading.overlay] of a handler's second parameter: a DOM element has
    no such property. *)
Definition payload_overlay (p : payload) : M node_id :=
  match p with
  | PInst i => the_overlay i
  | PNode _ => throw TypeError
  end.

Definition faded (k : effect) (ms : nat) (x : node) : node :=
  with_fx (enqueue k ms (displayed x) (fx x)) x.

Definition fade (k : effect) (ms : nat) (n : node_id) : M unit :=
  update_node n (faded k ms).

(** [.show()] / [.hide()] without a duration: at once, past the queue. *)
Definition set_displayed (d : bool) (n : node_id) : M unit :=
  update_node n (λ x, with_fx (d, fx x) x).

(** Calling a function value with one argument. *)
Definition run_callback (f : callback) (p : payload) : M unit :=
  match f with
  | CbFadeIn ms => let! n := payload_overlay p in fade FadeIn ms n
  | CbFadeOut ms => let! n := payload_overlay p in fade FadeOut ms n
  | CbNoop => ret tt
  | CbShow => let! n := payload_overlay p in set_displayed true n
  | CbHide => let! n := payload_overlay p in set_displayed false n
  | CbLog tag => modify (λ w, with_log (log w ++ [(tag, p)]) w)
  end.

(** Calling a value: only functions can be called. *)
Definition call (v : value) (p : payload) : M unit :=
  match v with
  | VFun f => run_callback f p
  | _ => throw TypeError
  end.

Definition run_handler (p : payload) (h : handler) : M unit :=
  match h with
  | HSettings self hook =>
      let! i := get_inst self in call (prop (settings i) hook) p
  | HUser f => run_callback f p
  end.

(** Handlers bound on [e] for [ev], in registration order. *)
Definition handlers_on (w : world) (ev : notification) (e : elem) : list handler :=
  omap (λ b, match b with
             | (e', ev', h) =>
                 if decide (e' = e ∧ ev' = ev) then Some h else None
             end) (bound w).

(** The handlers a notification on [e] reaches: those of [e], then those
    of its ancestors. *)
Definition handlers_for (w : world) (ev : notification) (e : elem) : list handler :=
  mbind (handlers_on w ev) (e :: ancestors (page w e)).

(** [$(e).trigger(ev, p)] *)
Definition trigger (e : elem) (ev : notification) (p : payload) : M unit :=
  modify (λ w, with_fired (fired w ++ [(e, ev, p)]) w) >>
  let! hs := gets (λ w, handlers_for w ev e) in
  for_each hs (run_handler p).

(** [$(e).on(ev, h)] *)
Definition on (e : elem) (ev : notification) (h : handler) : M unit :=
  modify (λ w, with_bound (bound w ++ [(e, ev, h)]) w).

(** ** [Loading.prototype] *)

(** Lines 168-184. *)
Definition resize (self : inst_id) : M unit :=
  let! element := jq self in
  let! i := get_inst self in
  let! el := gets (λ w, page w element) in
  let totalWidth := Px (outerWidth el) in
  let totalHeight := Px (outerHeight el) in
  let (totalWidth, totalHeight) :=
    if truthy (prop (settings i) "fullPage") then (Full, Full)
    else (totalWidth, totalHeight) in
  let! n := the_overlay self in
  update_node n (with_box {| top := offset_top el;
                             left := offset_left el;
                             width := totalWidth;
                             height := totalHeight |}).

(** Lines 86-111. *)
Definition initOverlay (self : inst_id) : M unit :=
  let! i := get_inst self in
  let s := settings i in
  let! n := gets (λ w, length (nodes w)) in
  modify (λ w, with_nodes
    (nodes w ++ [{| position := if truthy (prop s "fullPage")
                                then Fixed else Absolute;
                    theme := prop s "theme";
                    message := prop s "message";
                    html_id := None;
                    box := None;
                    displayed := false;       (* .hide() *)
                    fx := [];
                    click := [] |}]) w) >>
  update_inst self (with_overlay n) >>
  modify (λ w, with_body (n :: body w) w) >>
  let! element := jq self in
  let! el := gets (λ w, page w element) in
  (match attr_id el with
   | Some elementID =>
       if truthy (VStr elementID)
       then update_node n (with_html_id (elementID +:+ "_loading-overlay"))
       else ret tt
   | None => ret tt
   end) >>
  resize self.

(** Lines 196-198. *)
Definition stop (self : inst_id) : M unit :=
  let! element := jq self in
  trigger element LoadingStop (PInst self).

(** Lines 189-191. *)
Definition start (self : inst_id) : M unit :=
  let! element := jq self in
  trigger element LoadingStart (PInst self).

(** [x.is(':visible')]: displayed, with a box that is not empty. *)
Definition is_visible (w : world) (n : node_id) (x : node) : bool :=
  displayed x && layout w n (box x).

(** Lines 203-205. *)
Definition active (self : inst_id) : M bool :=
  let! n := the_overlay self in
  let! x := get_node n in
  gets (λ w, is_visible w n x).

(** Lines 210-216. *)
Definition toggle (self : inst_id) : M unit :=
  let! a := active self in
  if a then stop self else start self.

(** Lines 117-142. *)
Definition attachMethodsToExternalEvents (self : inst_id) : M unit :=
  let! i := get_inst self in
  (if truthy (prop (settings i) "stoppable")
   then let! n := the_overlay self in
        update_node n (λ x, with_click (click x ++ [ClickStop self]) x)
   else ret tt) >>
  (let! n := the_overlay self in
   update_node n (λ x, with_click (click x ++ [ClickNotify self]) x)) >>
  modify (λ w, with_on_resize (on_resize w ++ [self]) w) >>
  modify (λ w, with_on_ready (on_ready w ++ [self]) w).

(** Lines 147-161. *)
Definition attachOptionsHandlers (self : inst_id) : M unit :=
  (let! element := jq self in
   on element LoadingStart (HSettings self "onStart")) >>
  (let! element := jq self in
   on element LoadingStop (HSettings self "onStop")) >>
  (let! element := jq self in
   on element LoadingClick (HSettings self "onClick")).

(** Lines 77-81. *)
Definition init (self : inst_id) : M unit :=
  initOverlay self >>
  attachMethodsToExternalEvents self >>
  attachOptionsHandlers self.

(** [$.extend({}, a, b)] with [b] an argument. *)
Definition merged (a : object) (b : arg) : M object :=
  match entries b with
  | Some o => ret (extend (extend ∅ a) o)
  | None => throw Unmodelled
  end.

(** Lines 221-223. *)
Definition options (self : inst_id) (o : arg) : M unit :=
  let! i := get_inst self in
  let! s := merged (settings i) o in
  update_inst self (with_settings s).

(** Lines 11-17: the body of the constructor, run on [self].  A plain
    object in the place of the element is outside the model. *)
Definition Loading (self : inst_id) (element : arg) (o : arg) : M unit :=
  (match element with
   | AElem e => update_inst self (with_element (Some e))
   | AObj _ => throw Unmodelled
   | _ => update_inst self (with_element None)
   end) >>
  (let! d := gets defaults in
   let! s := merged d o in
   update_inst self (with_settings s)) >>
  let! e := jq self in
  let! el := gets (λ w, page w e) in
  update_inst self (λ i, with_settings
    (<["fullPage" := VBool (is_body el)]> (settings i)) i) >>
  init self.

(** [new Loading(element, options)] *)
Definition new_Loading (element : arg) (o : arg) : M inst_id :=
  let! self := gets (λ w, length (heap w)) in
  modify (λ w, with_heap (heap w ++ [Instance None ∅ None]) w) >>
  Loading self element o >>
  ret self.

(** Lines 68-70. *)
Definition setDefaults (o : arg) : M unit :=
  let! d := gets defaults in
  let! s := merged d o in
  modify (with_defaults s).

(** ** Dispatch by name: [loading[name].apply(loading, otherArgs)] *)

Inductive method :=
| MInit | MInitOverlay | MAttachMethodsToExternalEvents
| MAttachOptionsHandlers | MResize | MStart | MStop | MActive | MToggle
| MOptions.

(** The functions [$.extend(Loading.prototype, {...})] installs, lines
    72-224. *)
Definition prototype : list (string * method) :=
  [("init", MInit); ("initOverlay", MInitOverlay);
   ("attachMethodsToExternalEvents", MAttachMethodsToExternalEvents);
   ("attachOptionsHandlers", MAttachOptionsHandlers);
   ("resize", MResize); ("start", MStart); ("stop", MStop);
   ("active", MActive); ("toggle", MToggle); ("options", MOptions)].

(** Functions every object inherits from [Object.prototype]; called on
    the plugin object they read it and change nothing. *)
Definition object_prototype : list string :=
  ["hasOwnProperty"; "isPrototypeOf"; "propertyIsEnumerable";
   "toLocaleString"; "toString"; "valueOf"].

(** Accessor helpers some engines add to [Object.prototype]. *)
Definition legacy_prototype : list string :=
  ["__defineGetter__"; "__defineSetter__"; "__lookupGetter__";
   "__lookupSetter__"].

Inductive member :=
| Method (m : method)
| Constructor             (* the prototype's [constructor] is [Loading] *)
| Inherited
| Applied (f : callback)  (* [settings.apply], should the settings hold one *)
| Legacy.

Fixpoint assoc {A} (k : string) (l : list (string * A)) : option A :=
  match l with
  | [] => None
  | (k', a) :: l' => if decide (k' = k) then Some a else assoc k l'
  end.

(** What [loading[name].apply] resolves to: [None] when [loading[name]] is
    [undefined] or a value without a function [apply].  Own properties
    come first, then the prototype chain. *)
Definition member_of (i : instance) (name : string) : option member :=
  if decide (name = "settings") then
    match prop (settings i) "apply" with
    | VFun f => Some (Applied f)
    | _ => None
    end
  else if decide (name ∈ ["element"; "overlay"; "overlayContent"]) then None
  else match assoc name prototype with
       | Some m => Some (Method m)
       | None =>
           if decide (name = "constructor") then Some Constructor
           else if decide (name ∈ object_prototype) then Some Inherited
           else if decide (name ∈ legacy_prototype) then Some Legacy
           else None
       end.

Definition call_method (self : inst_id) (m : method) (args : list arg) : M unit :=
  match m with
  | MInit => init self
  | MInitOverlay => initOverlay self
  | MAttachMethodsToExternalEvents => attachMethodsToExternalEvents self
  | MAttachOptionsHandlers => attachOptionsHandlers self
  | MResize => resize self
  | MStart => start self
  | MStop => stop self
  | MActive => let! _ := active self in ret tt
  | MToggle => toggle self
  | MOptions => options self (nth 0 args AUndefined)
  end.

Definition invoke (self : inst_id) (name : string) (args : list arg) : M unit :=
  let! i := get_inst self in
  match member_of i name with
  | Some (Method m) => call_method self m args
  | Some Constructor =>
      Loading self (nth 0 args AUndefined) (nth 1 args AUndefined)
  | Some Inherited => ret tt
  | Some (Applied f) => run_callback f (PInst self)
  | Some Legacy => throw Unmodelled
  | None => throw TypeError
  end.

(** ** [$.fn.loading], lines 234-251 *)

Definition loading_each (o : arg) (otherArgs : list arg) (this : elem) : M unit :=
  let! d := gets (λ w, data w !! this) in
  let! loading :=
    match d with
    | Some l => ret l
    | None =>
        let! l := new_Loading (AElem this) o in
        modify (λ w, with_data (<[this := l]> (data w)) w) >>
        ret l
    end in
  match o with
  | AStr name => invoke loading name otherArgs
  | _ => start loading
  end.

Definition loading (this : list elem) (o : arg) (otherArgs : list arg) : M unit :=
  for_each this (loading_each o otherArgs).

(** ** The [:loading] selector, lines 259-267 *)

Definition expr_loading (element : elem) : M bool :=
  let! loadingObj := gets (λ w, data w !! element) in
  match loadingObj with
  | None => ret false
  | Some l => active l
  end.

(** ** What the browser does *)

(** A click on overlay [n]: its click handlers run in the order they were
    bound; in [ClickNotify], [this] is the clicked element. *)
Definition run_click (n : node_id) (h : click_handler) : M unit :=
  match h with
  | ClickStop self => stop self
  | ClickNotify self =>
      let! element := jq self in
      trigger element LoadingClick (PNode n)
  end.

Definition click_overlay (n : node_id) : M unit :=
  let! x := get_node n in
  for_each (click x) (run_click n).

(** The window is resized; the document becomes ready. *)
Definition window_resize : M unit :=
  let! hs := gets on_resize in for_each hs resize.

Definition document_ready : M unit :=
  let! hs := gets on_ready in for_each hs resize.

(** [t] milliseconds pass. *)
Definition elapse (t : nat) (w : world) : world :=
  with_nodes (map (λ x, with_fx (displayed x, pass t (fx x)) x) (nodes w)) w.

(** The effects timer fires ([jQuery.fx.tick]). *)
Definition fx_tick (w : world) : world :=
  with_nodes (map (λ x, with_fx (tick (displayed x) (fx x)) x) (nodes w)) w.

(** ** A page on which the plugin has just been loaded *)

(** Lines 19-63. *)
Definition Loading_defaults : object :=
  list_to_map [("message", VStr "Loading...");
               ("theme", VStr "light");
               ("stoppable", VBool false);
               ("onStart", VFun (CbFadeIn 150));
               ("onStop", VFun (CbFadeOut 150));
               ("onClick", VFun CbNoop)].

(** The layout of the examples: an overlay given a width and a height has
    a box unless both are zero, ['100%'] of the window not being empty; an
    overlay given none is sized by its content. *)
Definition nonzero (l : css_length) : bool :=
  match l with
  | Px z => (0 <? z)%Z
  | Full => true
  end.

Definition sized (g : option geometry) : bool :=
  match g with
  | Some g => nonzero (width g) || nonzero (height g)
  | None => true
  end.

Definition fresh (p : elem → el_info) : world :=
  {| page := p; layout := λ _, sized;
     defaults := Loading_defaults; data := ∅; heap := [];
     nodes := []; body := []; bound := []; on_resize := []; on_ready := [];
     fired := []; log := [] |}.

(** Running a computation for its state, for its result. *)
Definition exec {A} (m : M A) (w : world) : world := (m w).2.
Definition eval {A} (m : M A) (w : world) : outcome A := (m w).1.

(** The page of the unit tests: element 0 is the body, element 1 the
    division [<div id="test-div">] inside it. *)
Definition test_page (e : elem) : el_info :=
  match e with
  | 0 => ElInfo true None 0 0 1024 768 []
  | _ => ElInfo false (Some "test-div") 40 8 300 120 [0]
  end.

(** ** Observations used in the statements *)

(** ** Frames: what a computation leaves as it was

    [keeps f m]: the observation [f] of the page state is the same after
    [m] as before, whether [m] returns or throws. *)

Definition keeps {B A} (f : world → B) (m : M A) : Prop :=
  ∀ w, f (m w).2 = f w.

(** Observations of the page state. *)

(** Which plugin objects exist and which element holds which. *)
Definition identity (w : world) : gmap elem inst_id * nat :=
  (data w, length (heap w)).

(** The overlay elements of the document. *)
Definition overlays (w : world) : list node_id * nat :=
  (body w, length (nodes w)).

(** Display state and effects queue of every overlay. *)
Definition visibility (w : world) : list (bool * list (effect * nat)) :=
  map (λ x, (displayed x, fx x)) (nodes w).

(** The plugin objects, the page and the bound handlers. *)
Definition objects (w : world)
  : list instance * (elem → el_info) * list (elem * notification * handler) :=
  (heap w, page w, bound w).

(** The named operations that build an overlay. *)
Definition builds_overlay (o : arg) : Prop :=
  match o with
  | AStr name => name ∈ ["init"; "initOverlay"; "constructor"]
  | _ => False
  end.

(** ** What the operations compute, in closed form *)

(** The geometry [resize] gives the overlay of plugin object [i] on
    element [e]. *)
Definition resized (w : world) (e : elem) (i : instance) : geometry :=
  let el := page w e in
  if truthy (prop (settings i) "fullPage")
  then Geometry (offset_top el) (offset_left el) Full Full
  else Geometry (offset_top el) (offset_left el)
                (Px (outerWidth el)) (Px (outerHeight el)).

(** The settings of a plugin object constructed on [e] from the entries
    [ents] of its options. *)
Definition constructed_settings (w : world) (e : elem) (ents : object)
  : object :=
  <["fullPage" := VBool (is_body (page w e))]>
    (extend (extend ∅ (defaults w)) ents).

(** The click handlers [attachMethodsToExternalEvents] binds. *)
Definition clicks (self : inst_id) (stoppable : bool) : list click_handler :=
  (if stoppable then [ClickStop self] else []) ++ [ClickNotify self].

Definition constructed_node (w : world) (e : elem) (ents : object) : node :=
  let s := constructed_settings w e ents in
  {| position := if truthy (prop s "fullPage") then Fixed else Absolute;
     theme := prop s "theme";
     message := prop s "message";
     html_id := match attr_id (page w e) with
                | Some i => if truthy (VStr i)
                            then Some (i +:+ "_loading-overlay") else None
                | None => None
                end;
     box := Some (resized w e (Instance (Some e) s (Some (length (nodes w)))));
     displayed := false;
     fx := [];
     click := clicks (length (heap w)) (truthy (prop s "stoppable")) |}.

(** The page after [new Loading($(e), options)]. *)
Definition constructed (w : world) (e : elem) (ents : object) : world :=
  let self := length (heap w) in
  {| page := page w; layout := layout w;
     defaults := defaults w; data := data w;
     heap := heap w ++ [Instance (Some e) (constructed_settings w e ents)
                                 (Some (length (nodes w)))];
     nodes := nodes w ++ [constructed_node w e ents];
     body := length (nodes w) :: body w;
     bound := bound w ++ [(e, LoadingStart, HSettings self "onStart");
                          (e, LoadingStop, HSettings self "onStop");
                          (e, LoadingClick, HSettings self "onClick")];
     on_resize := on_resize w ++ [self];
     on_ready := on_ready w ++ [self];
     fired := fired w; log := log w |}.

(** ** Conditions on the page used in the statements *)

(** An overlay with a running effect is displayed: what fades alone
    maintain ([.hide()] in the middle of an effect breaks it). *)
Definition consistent (x : node) : Prop :=
  fx x ≠ [] → displayed x = true.

(** The page [w'] has the overlays of [w], displayed and animated as on
    [w], and after them overlays that are hidden and at rest. *)
Definition adds_hidden (w w' : world) : Prop :=
  ∃ c, visibility w' = visibility w ++ replicate c (false, []).

(** What [loading[name]] resolves to is neither [start], [stop] or
    [toggle] nor a function stored under [settings.apply]. *)
Definition quiet (m : option member) : Prop :=
  match m with
  | Some (Method MStart) | Some (Method MStop) | Some (Method MToggle)
  | Some (Applied _) => False
  | _ => True
  end.

Definition fader (k : effect) (ms : nat) : callback :=
  match k with
  | FadeIn => CbFadeIn ms
  | FadeOut => CbFadeOut ms
  end.

(** Handler [h] does one thing: it fades the overlay of its parameter. *)
Definition fades (hp : list instance) (k : effect) (ms : nat) (h : handler)
  : Prop :=
  match h with
  | HSettings j hook =>
      ∃ i, hp !! j = Some i ∧ prop (settings i) hook = VFun (fader k ms)
  | HUser f => f = fader k ms
  end.

(** Handler [h] calls a function. *)
Definition callable (hp : list instance) (h : handler) : Prop :=
  match h with
  | HSettings j hook =>
      ∃ i f, hp !! j = Some i ∧ prop (settings i) hook = VFun f
  | HUser _ => True
  end.

(** The handlers that [loading.start] and [loading.stop] reach from [e]
    are the default ones, and there are some. *)
Definition default_handlers (w : world) (e : elem) : Prop :=
  handlers_for w LoadingStart e ≠ []
  ∧ Forall (fades (heap w) FadeIn 150) (handlers_for w LoadingStart e)
  ∧ handlers_for w LoadingStop e ≠ []
  ∧ Forall (fades (heap w) FadeOut 150) (handlers_for w LoadingStop e).

(** Plugin object [self] is attached to element [e] with overlay [n],
    whose state is [x]. *)
Definition attached (w : world) (self : inst_id) (e : elem) (n : node_id)
    (x : node) : Prop :=
  ∃ i, heap w !! self = Some i ∧ element i = Some e ∧ overlay i = Some n
       ∧ nodes w !! n = Some x.

(** The overlay of plugin object [self] has the geometry [resize] gives
    it on the page as it is. *)
Definition fitted (w : world) (self : inst_id) : Prop :=
  ∃ i e n x, heap w !! self = Some i ∧ element i = Some e
             ∧ overlay i = Some n ∧ nodes w !! n = Some x
             ∧ box x = Some (resized w e i).

(** The plugin objects of [l] are attached, each with an overlay of its
    own. *)
Definition tidy (l : list inst_id) (w : world) : Prop :=
  (∀ self, self ∈ l → ∃ e n x, attached w self e n x)
  ∧ (∀ s1 s2 i1 i2, s1 ∈ l → s2 ∈ l →
       heap w !! s1 = Some i1 → heap w !! s2 = Some i2 →
       overlay i1 = overlay i2 → s1 = s2).

(** What [resize] reads and the number of overlays. *)
Definition shape (w : world) : list instance * (elem → el_info) * nat :=
  (heap w, page w, length (nodes w)).

(** ** Pages used as examples *)

(** The test page after [$('#test-div').loading()]. *)
Definition attached_page : world :=
  exec (loading [1] AUndefined []) (fresh test_page).

(** The same once the fade-in has run: the effects timer fires 156 ms
    later. *)
Definition shown_page : world := fx_tick (elapse 156 attached_page).

(** The overlay of the test division on [shown_page]. *)
Definition shown_node : node :=
  {| position := Absolute; theme := VStr "light";
     message := VStr "Loading..."; html_id := Some "test-div_loading-overlay";
     box := Some (Geometry 40 8 (Px 300) (Px 120));
     displayed := true; fx := []; click := [ClickNotify 0] |}.




(** The page [shown_page] after the handlers of the test division have
    been removed, as [div.off('loading.start').off('loading.stop')] does
    in the unit tests. *)
Definition unbound_page : world := with_bound [] shown_page.

(** [leads R m]: the page after [m] is related by [R] to the page before,
    whether [m] returns or throws. *)
Definition leads {A} (R : world → world → Prop) (m : M A) : Prop :=
  ∀ w, R w (m w).2.

(** ** Further pages and observations *)

(** The test page after [$('#test-div').loading('stop')] on [shown_page],
    once the fade-out has run. *)
Definition hidden_page : world :=
  fx_tick (elapse 156 (exec (stop 0) shown_page)).

(** The overlay of the test division on [hidden_page]. *)
Definition hidden_node : node :=
  {| position := Absolute; theme := VStr "light";
     message := VStr "Loading..."; html_id := Some "test-div_loading-overlay";
     box := Some (Geometry 40 8 (Px 300) (Px 120));
     displayed := false; fx := []; click := [ClickNotify 0] |}.

(** The test page with two plugin objects: one on the division, one on
    the body, both shown. *)
Definition two_page : world :=
  fx_tick (elapse 156 (exec (loading [0] AUndefined []) attached_page)).

(** What key [k] reads as after [$.extend] with source [b], on a target
    where it read [d]: the value [b] holds under [k] unless that is
    missing or [undefined]. *)
Definition over (b : object) (k : string) (d : value) : value :=
  match b !! k with
  | Some v => if decide (v = VUndefined) then d else v
  | None => d
  end.

(** Everything on the page but the plugin objects. *)
Definition surroundings (w : world) :=
  (page w, layout w, defaults w, data w, nodes w, body w, bound w,
   on_resize w, on_ready w, fired w, log w).

(** The overlays of the test division and of the body on [two_page]. *)
Definition two_node_div : node :=
  {| position := Absolute; theme := VStr "light";
     message := VStr "Loading..."; html_id := Some "test-div_loading-overlay";
     box := Some (Geometry 40 8 (Px 300) (Px 120));
     displayed := true; fx := []; click := [ClickNotify 0] |}.

(** * Properties *)

(** ** Lists used as stores *)

Lemma lookup_snoc {A} (l : list A) (x : A) : (l ++ [x]) !! length l = Some x.
Proof. by rewrite list_lookup_middle. Qed.

Lemma insert_snoc {A} (l : list A) (x y : A) :
  <[length l := y]> (l ++ [x]) = l ++ [y].
Proof.
  rewrite insert_app_r_alt by lia. by rewrite Nat.sub_diag.
Qed.

(** ** The monad *)

Lemma bind_Ret {A B} (m : M A) (k : A → M B) w a w' :
  m w = (Ret a, w') → bind m k w = k a w'.
Proof. unfold bind. by intros ->. Qed.

Lemma for_each_one {A} (f : A → M unit) (x : A) w : for_each [x] f w = f x w.
Proof.
  simpl. unfold bind, ret. destruct (f x w) as [[[]|e] w']; reflexivity.
Qed.

Lemma for_each_app {A} (f : A → M unit) (l1 l2 : list A) w :
  for_each (l1 ++ l2) f w = (for_each l1 f >> for_each l2 f) w.
Proof.
  revert w. induction l1 as [|x l1 IH]; intros w; simpl.
  - reflexivity.
  - unfold bind. destruct (f x w) as [[[]|e] w']; [|reflexivity].
    rewrite IH. reflexivity.
Qed.


Section Keeps.
Context {B : Type} (f : world → B).

Lemma keeps_ret {A} (a : A) : keeps f (ret a).
Proof. by intros w. Qed.

Lemma keeps_throw {A} (e : error) : keeps f (@throw A e).
Proof. by intros w. Qed.

Lemma keeps_gets {A} (g : world → A) : keeps f (gets g).
Proof. by intros w. Qed.

Lemma keeps_must {A} (o : option A) : keeps f (must o).
Proof. by destruct o; intros w. Qed.

Lemma keeps_modify (g : world → world) :
  (∀ w, f (g w) = f w) → keeps f (modify g).
Proof. intros H w. apply H. Qed.

Lemma keeps_bind {A C} (m : M A) (k : A → M C) :
  keeps f m → (∀ a, keeps f (k a)) → keeps f (bind m k).
Proof.
  intros Hm Hk w. unfold bind. specialize (Hm w).
  destruct (m w) as [[a|e] w']; simpl in *.
  - by rewrite Hk.
  - done.
Qed.

Lemma keeps_for_each {A} (l : list A) (g : A → M unit) :
  (∀ x, keeps f (g x)) → keeps f (for_each l g).
Proof.
  intros H. induction l as [|x l IH]; simpl.
  - apply keeps_ret.
  - apply keeps_bind; [apply H | intros _; apply IH].
Qed.

Lemma keeps_get_inst self : keeps f (get_inst self).
Proof.
  unfold get_inst. apply keeps_bind; [apply keeps_gets|].
  intros h. destruct (h !! self); [apply keeps_ret | apply keeps_throw].
Qed.

Lemma keeps_get_node n : keeps f (get_node n).
Proof.
  unfold get_node. apply keeps_bind; [apply keeps_gets|].
  intros h. destruct (h !! n); [apply keeps_ret | apply keeps_throw].
Qed.

Lemma keeps_update_inst self g :
  (∀ w i, heap w !! self = Some i →
          f (with_heap (<[self := g i]> (heap w)) w) = f w) →
  keeps f (update_inst self g).
Proof.
  intros H w. unfold update_inst, get_inst, bind, gets, modify. simpl.
  destruct (heap w !! self) eqn:E; simpl; [by apply H | done].
Qed.

Lemma keeps_update_node n g :
  (∀ w x, nodes w !! n = Some x →
          f (with_nodes (<[n := g x]> (nodes w)) w) = f w) →
  keeps f (update_node n g).
Proof.
  intros H w. unfold update_node, get_node, bind, gets, modify. simpl.
  destruct (nodes w !! n) eqn:E; simpl; [by apply H | done].
Qed.

End Keeps.

Create HintDb plugin discriminated.
#[global] Hint Unfold jq the_overlay payload_overlay fade set_displayed
  run_callback call run_handler trigger on resize initOverlay stop start
  active toggle attachMethodsToExternalEvents attachOptionsHandlers init
  merged options Loading call_method run_click : plugin.

(** One step of a frame proof: the side conditions of [modify],
    [update_inst] and [update_node] are left to [side]. *)
Ltac keeps_step side :=
  lazymatch goal with
  | |- keeps _ (ret _) => apply keeps_ret
  | |- keeps _ (throw _) => apply keeps_throw
  | |- keeps _ (gets _) => apply keeps_gets
  | |- keeps _ (must _) => apply keeps_must
  | |- keeps _ (get_inst _) => apply keeps_get_inst
  | |- keeps _ (get_node _) => apply keeps_get_node
  | |- keeps _ (bind _ _) => apply keeps_bind; [ | intros ? ]
  | |- keeps _ (for_each _ _) => apply keeps_for_each; intros ?
  | |- keeps _ (modify _) => apply keeps_modify; intros ?; side
  | |- keeps _ (update_inst _ _) =>
      apply keeps_update_inst; intros ? ? ?; side
  | |- keeps _ (update_node _ _) =>
      apply keeps_update_node; intros ? ? ?; side
  | |- keeps _ (match ?x with _ => _ end) => destruct x
  | |- keeps _ _ => progress autounfold with plugin
  end.

Ltac keeps_tac side := repeat keeps_step side.


(** Reducing the projections of an updated page state. *)
Ltac fields :=
  cbn [page layout defaults data heap nodes body bound on_resize on_ready
       fired log with_layout
       with_defaults with_data with_heap with_nodes with_body with_bound
       with_on_resize with_on_ready with_fired with_log with_page
       position theme message html_id box displayed fx click
       with_box with_html_id with_fx with_click
       element settings overlay with_element with_settings with_overlay
       fst snd] in *.

Ltac side_length :=
  unfold identity, overlays, objects; fields;
  rewrite ?length_insert; try reflexivity.

Lemma visibility_insert (ns : list node) n x y :
  ns !! n = Some x → displayed y = displayed x → fx y = fx x →
  map (λ x, (displayed x, fx x)) (<[n := y]> ns)
  = map (λ x, (displayed x, fx x)) ns.
Proof.
  intros Hn Hd Hf. rewrite list_fmap_insert, Hd, Hf.
  apply list_insert_id. by rewrite list_lookup_fmap, Hn.
Qed.

Ltac side_visibility :=
  unfold visibility; fields; try reflexivity;
  try (eapply visibility_insert; [eassumption | reflexivity | reflexivity]).

(** *** Notifications come from [trigger] only *)

Lemma run_handler_keeps_fired p h : keeps fired (run_handler p h).
Proof. keeps_tac side_length. Qed.

Lemma run_handler_keeps_objects p h : keeps objects (run_handler p h).
Proof. keeps_tac side_length. Qed.

Lemma run_handler_keeps_overlays p h : keeps overlays (run_handler p h).
Proof. keeps_tac side_length. Qed.

(** *** Methods that leave display states alone *)

Lemma resize_keeps_visibility self : keeps visibility (resize self).
Proof. keeps_tac side_visibility. Qed.

Lemma options_keeps_visibility self o : keeps visibility (options self o).
Proof. keeps_tac side_visibility. Qed.

Lemma attachMethodsToExternalEvents_keeps_visibility self :
  keeps visibility (attachMethodsToExternalEvents self).
Proof. keeps_tac side_visibility. Qed.

Lemma attachOptionsHandlers_keeps_visibility self :
  keeps visibility (attachOptionsHandlers self).
Proof. keeps_tac side_visibility. Qed.

(** *** Queries do not change the page *)

Lemma active_pure self w : exec (active self) w = w.
Proof.
  assert (H : keeps (λ w, w) (active self)) by keeps_tac idtac.
  apply H.
Qed.

Lemma expr_loading_pure e w : exec (expr_loading e) w = w.
Proof.
  unfold exec, expr_loading, bind, gets. simpl.
  destruct (data w !! e); [apply active_pure | reflexivity].
Qed.

(** *** Dispatch *)

Lemma assoc_prototype_init name :
  assoc name prototype = Some MInit → name = "init".
Proof.
  unfold prototype. simpl. repeat case_decide; congruence.
Qed.

Lemma assoc_prototype_initOverlay name :
  assoc name prototype = Some MInitOverlay → name = "initOverlay".
Proof.
  unfold prototype. simpl. repeat case_decide; congruence.
Qed.

Lemma member_of_Method i name m :
  member_of i name = Some (Method m) → assoc name prototype = Some m.
Proof.
  unfold member_of. repeat case_decide; repeat case_match; congruence.
Qed.

Lemma member_of_Constructor i name :
  member_of i name = Some Constructor → name = "constructor".
Proof.
  unfold member_of. repeat case_decide; repeat case_match; congruence.
Qed.


Lemma Loading_keeps_identity self el o : keeps identity (Loading self el o).
Proof. keeps_tac side_length. Qed.

Lemma invoke_keeps_identity self name args :
  keeps identity (invoke self name args).
Proof.
  unfold invoke. apply keeps_bind; [apply keeps_get_inst|]. intros i.
  destruct (member_of i name) as [[m| | |f|]|].
  - destruct m; keeps_tac side_length.
  - apply Loading_keeps_identity.
  - apply keeps_ret.
  - keeps_tac side_length.
  - apply keeps_throw.
  - apply keeps_throw.
Qed.

Lemma start_keeps_identity self : keeps identity (start self).
Proof. keeps_tac side_length. Qed.

Lemma start_keeps_overlays self : keeps overlays (start self).
Proof. keeps_tac side_length. Qed.

Lemma invoke_keeps_overlays self name args :
  ¬ builds_overlay (AStr name) → keeps overlays (invoke self name args).
Proof.
  intros Hb. unfold invoke. apply keeps_bind; [apply keeps_get_inst|].
  intros i. destruct (member_of i name) as [[m| | |f|]|] eqn:E.
  - apply member_of_Method in E.
    destruct m; try (keeps_tac side_length; fail).
    + apply assoc_prototype_init in E. subst. exfalso. apply Hb.
      simpl. set_solver.
    + apply assoc_prototype_initOverlay in E. subst. exfalso. apply Hb.
      simpl. set_solver.
  - apply member_of_Constructor in E. subst. exfalso. apply Hb.
    simpl. set_solver.
  - apply keeps_ret.
  - keeps_tac side_length.
  - apply keeps_throw.
  - apply keeps_throw.
Qed.

(** On an element that holds a plugin object, [$.fn.loading] is the
    dispatch alone. *)
Lemma loading_attached w e l o args :
  data w !! e = Some l →
  loading [e] o args w
  = match o with
    | AStr name => invoke l name args
    | _ => start l
    end w.
Proof.
  intros H. unfold loading. rewrite for_each_one.
  unfold loading_each, bind at 1, gets. simpl. rewrite H.
  unfold bind, ret. reflexivity.
Qed.

(** ** Symbolic execution *)

Lemma prop_insert (s : object) k v : prop (<[k := v]> s) k = v.
Proof. unfold prop. by rewrite lookup_insert_eq. Qed.

Lemma truthy_VBool b : truthy (VBool b) = b.
Proof. reflexivity. Qed.

Ltac run :=
  cbv [bind ret throw gets modify must get_inst get_node update_inst
       update_node jq the_overlay]; fields.
Ltac snoc :=
  rewrite ?lookup_snoc, ?insert_snoc, ?prop_insert, ?truthy_VBool.
Ltac steps := repeat (progress (run; snoc)).

Lemma resize_spec w self i e n x :
  heap w !! self = Some i → element i = Some e → overlay i = Some n →
  nodes w !! n = Some x →
  resize self w
  = (Ret tt, with_nodes (<[n := with_box (resized w e i) x]> (nodes w)) w).
Proof.
  intros Hi He Hn Hx. unfold resize, resized. run. rewrite Hi. run.
  rewrite He. run. rewrite Hi.
  destruct (truthy _); run; rewrite Hi; run; rewrite Hn; run; rewrite Hx;
    reflexivity.
Qed.

Lemma new_Loading_spec w e o ents :
  entries o = Some ents →
  new_Loading (AElem e) o w = (Ret (length (heap w)), constructed w e ents).
Proof.
  intros Ho. destruct w as [pg ly df dt hp ns bd bo rs rd fi lg].
  unfold new_Loading, Loading, init, initOverlay,
    attachMethodsToExternalEvents, attachOptionsHandlers, resize, on, merged.
  unfold constructed, constructed_node, constructed_settings, resized, clicks.
  rewrite Ho. steps.
  destruct (attr_id (pg e)) as [i|] eqn:Ei; [destruct (truthy (VStr i))|];
    steps; destruct (is_body (pg e)); steps;
    destruct (truthy (prop _ "stoppable")); steps.
  all: rewrite <- ?app_assoc; reflexivity.
Qed.

(** ** The effects queue *)

Lemma launch_one k ms d :
  ms ≠ 0 →
  launch d [(k, ms)] = if animates k d then (true, [(k, ms)]) else (d, []).
Proof.
  intros H. simpl. destruct (animates k d); [|done]. by destruct ms.
Qed.

Lemma launch_idle k q :
  Forall (λ a, a.1 = k) q → launch (final k) q = (final k, []).
Proof.
  induction q as [|[k' ms] q IH]; intros Hq; [reflexivity|].
  apply Forall_cons in Hq as [Hk Hq']. simpl in Hk. subst k'.
  simpl. replace (animates k (final k)) with false by (by destruct k).
  by apply IH.
Qed.

Lemma enqueue_idle k ms : enqueue k ms (final k) [] = (final k, []).
Proof. apply (launch_idle k [(k, ms)]). by repeat constructor. Qed.

Lemma enqueue_FadeOut_displayed ms d q :
  ms ≠ 0 → (enqueue FadeOut ms d q).1 = d.
Proof.
  intros H. destruct q; [|done]. unfold enqueue. rewrite launch_one by done.
  by destruct d.
Qed.

Lemma enqueue_FadeIn_displayed ms d q :
  ms ≠ 0 → (q ≠ [] → d = true) → (enqueue FadeIn ms d q).1 = true.
Proof.
  intros H Hc. destruct q as [|a q].
  - unfold enqueue. rewrite launch_one by done. by destruct d.
  - simpl. apply Hc. discriminate.
Qed.

Lemma enqueue_consistent k ms d q :
  ms ≠ 0 → (q ≠ [] → d = true) →
  (enqueue k ms d q).2 ≠ [] → (enqueue k ms d q).1 = true.
Proof.
  intros H Hc. destruct q as [|a q].
  - unfold enqueue. rewrite launch_one by done.
    destruct (animates k d); simpl; congruence.
  - intros _. simpl. apply Hc. discriminate.
Qed.

Lemma with_fx_id x : with_fx (displayed x, fx x) x = x.
Proof. by destruct x. Qed.

(** Fading a node [c] times. *)
Lemma faded_in_displayed ms c x :
  ms ≠ 0 → consistent x →
  displayed (Nat.iter (S c) (faded FadeIn ms) x) = true.
Proof.
  intros Hms Hx.
  assert (H : ∀ c, consistent (Nat.iter c (faded FadeIn ms) x)).
  { clear c. induction c as [|c IH]; [exact Hx|]. simpl.
    unfold consistent, faded. fields. by apply enqueue_consistent. }
  simpl. unfold faded at 1. fields. by apply enqueue_FadeIn_displayed, H.
Qed.

Lemma faded_out_displayed ms c x :
  ms ≠ 0 → displayed (Nat.iter c (faded FadeOut ms) x) = displayed x.
Proof.
  intros Hms. induction c as [|c IH]; [reflexivity|]. simpl.
  unfold faded at 1. fields. by rewrite enqueue_FadeOut_displayed.
Qed.

Lemma faded_box k ms c x : box (Nat.iter c (faded k ms) x) = box x.
Proof. induction c as [|c IH]; [reflexivity|]. simpl. exact IH. Qed.

(** Fading towards the state the node is in, at rest: nothing happens. *)
Lemma faded_at_rest k ms c x :
  fx x = [] → displayed x = final k → Nat.iter c (faded k ms) x = x.
Proof.
  intros Hq Hd. induction c as [|c IH]; [reflexivity|].
  simpl. rewrite IH. unfold faded. rewrite Hq, Hd, enqueue_idle.
  rewrite <- Hq at 1. rewrite <- Hd at 1. apply with_fx_id.
Qed.

(** Fading away from the state the node is in, at rest: the first fade
    runs, the others wait behind it. *)
Lemma faded_from_rest k ms c x :
  ms ≠ 0 → fx x = [] → displayed x = negb (final k) →
  let y := Nat.iter (S c) (faded k ms) x in
  displayed y = true
  ∧ ∃ q, fx y = (k, ms) :: q ∧ Forall (λ a, a.1 = k) q.
Proof.
  intros Hms Hq Hd. induction c as [|c IH].
  - simpl. unfold faded. rewrite Hq, Hd. unfold enqueue.
    rewrite launch_one by done.
    replace (animates k (negb (final k))) with true by (by destruct k).
    fields. split; [done|]. by exists [].
  - destruct IH as (H1 & q & H2 & H3).
    set (z := Nat.iter (S c) (faded k ms) x) in *.
    change (Nat.iter (S (S c)) (faded k ms) x) with (faded k ms z).
    unfold faded. fields. rewrite H2. cbn [enqueue fst snd].
    split; [done|]. exists (q ++ [(k, ms)]). split; [done|].
    apply Forall_app. split; [done|]. by repeat constructor.
Qed.

(** The timer fires [t] milliseconds after such fades: the running one
    ends if its time has passed, and those behind it have nothing left to
    do. *)
Lemma ticked_from_rest k ms c x t :
  ms ≠ 0 → fx x = [] → displayed x = negb (final k) →
  let y := Nat.iter (S c) (faded k ms) x in
  (tick (displayed y) (pass t (fx y))).1
  = if t <? ms then true else final k.
Proof.
  intros Hms Hq Hd y.
  destruct (faded_from_rest k ms c x Hms Hq Hd) as (H1 & q & H2 & H3).
  fold y in H1, H2. rewrite H1, H2. cbn [pass tick].
  destruct (Nat.ltb_spec t ms) as [Hlt|Hge].
  - destruct (ms - t) as [|r] eqn:E; [lia|]. reflexivity.
  - replace (ms - t) with 0 by lia. by rewrite launch_idle.
Qed.

(** ** Running handlers *)

Lemma with_nodes_id w : with_nodes (nodes w) w = w.
Proof. by destruct w. Qed.

Lemma run_fade_handler w self i n x k ms h :
  heap w !! self = Some i → overlay i = Some n → nodes w !! n = Some x →
  fades (heap w) k ms h →
  run_handler (PInst self) h w
  = (Ret tt, with_nodes (<[n := faded k ms x]> (nodes w)) w).
Proof.
  intros Hi Hn Hx Hh. destruct h as [j hook|f]; simpl in Hh.
  - destruct Hh as (ij & Hj & Hp). unfold run_handler. run. rewrite Hj. run.
    rewrite Hp. destruct k; unfold call, run_callback, fader, payload_overlay, fade;
      run; rewrite Hi; run; rewrite Hn; run; rewrite Hx; reflexivity.
  - subst f. destruct k; unfold run_handler, run_callback, fader, payload_overlay, fade;
      run; rewrite Hi; run; rewrite Hn; run; rewrite Hx; reflexivity.
Qed.

Lemma run_fades hs : ∀ w self i n x k ms,
  heap w !! self = Some i → overlay i = Some n → nodes w !! n = Some x →
  Forall (fades (heap w) k ms) hs →
  for_each hs (run_handler (PInst self)) w
  = (Ret tt, with_nodes (<[n := Nat.iter (length hs) (faded k ms) x]> (nodes w)) w).
Proof.
  induction hs as [|h hs IH]; intros w self i n x k ms Hi Hn Hx Hf.
  - simpl. rewrite list_insert_id by done. by rewrite with_nodes_id.
  - inversion Hf as [|? ? Hh Hf']; subst. simpl.
    erewrite bind_Ret by (eapply run_fade_handler; eauto).
    erewrite IH; [| exact Hi | exact Hn | | exact Hf'].
    + fields. rewrite list_insert_insert_eq. rewrite <- Nat.iter_succ_r. reflexivity.
    + fields. apply list_lookup_insert_eq. by eapply lookup_lt_Some.
Qed.

Lemma trigger_fades w self i e n x k ms ev :
  heap w !! self = Some i → overlay i = Some n → nodes w !! n = Some x →
  Forall (fades (heap w) k ms) (handlers_for w ev e) →
  trigger e ev (PInst self) w
  = (Ret tt,
     with_nodes (<[n := Nat.iter (length (handlers_for w ev e)) (faded k ms) x]>
                   (nodes w))
       (with_fired (fired w ++ [(e, ev, PInst self)]) w)).
Proof.
  intros Hi Hn Hx Hf. unfold trigger. run.
  erewrite run_fades; [reflexivity | exact Hi | exact Hn | exact Hx | exact Hf].
Qed.

Lemma active_spec w self e n x :
  attached w self e n x → active self w = (Ret (is_visible w n x), w).
Proof.
  intros (i & Hi & He & Hn & Hx). unfold active. run. rewrite Hi. run.
  rewrite Hn. run. rewrite Hx. reflexivity.
Qed.

Lemma jq_spec w self i e :
  heap w !! self = Some i → element i = Some e → jq self w = (Ret e, w).
Proof. intros Hi He. run. rewrite Hi. run. by rewrite He. Qed.

Lemma attached_elapse t w self e n x :
  attached w self e n x →
  attached (elapse t w) self e n (with_fx (displayed x, pass t (fx x)) x).
Proof.
  intros (i & Hi & He & Hn & Hx). exists i. repeat split; try done.
  unfold elapse. fields. by rewrite list_lookup_fmap, Hx.
Qed.

Lemma attached_fx_tick w self e n x :
  attached w self e n x →
  attached (fx_tick w) self e n (with_fx (tick (displayed x) (fx x)) x).
Proof.
  intros (i & Hi & He & Hn & Hx). exists i. repeat split; try done.
  unfold fx_tick. fields. by rewrite list_lookup_fmap, Hx.
Qed.

Lemma trigger_fired e ev p w :
  fired (exec (trigger e ev p) w) = fired w ++ [(e, ev, p)].
Proof.
  unfold exec, trigger. run.
  pose proof (keeps_for_each fired
    (handlers_for (with_fired (fired w ++ [(e, ev, p)]) w) ev e)
    (run_handler p) (run_handler_keeps_fired p)) as H.
  rewrite H. reflexivity.
Qed.

(** ** Clicks *)

Lemma objects_heap w w' : objects w' = objects w → heap w' = heap w.
Proof. unfold objects. congruence. Qed.

Lemma overlays_length w w' :
  overlays w' = overlays w → length (nodes w') = length (nodes w).
Proof. unfold overlays. congruence. Qed.

Lemma run_callback_returns w self i n f :
  heap w !! self = Some i → overlay i = Some n → n < length (nodes w) →
  eval (run_callback f (PInst self)) w = Ret tt.
Proof.
  intros Hi Hn Hl. destruct (lookup_lt_is_Some_2 _ _ Hl) as [x Hx].
  unfold eval.
  destruct f; unfold run_callback, payload_overlay, fade, set_displayed;
    run; rewrite ?Hi; run; rewrite ?Hn; run; rewrite ?Hx; reflexivity.
Qed.

Lemma run_handler_returns w self i n h :
  heap w !! self = Some i → overlay i = Some n → n < length (nodes w) →
  callable (heap w) h →
  eval (run_handler (PInst self) h) w = Ret tt.
Proof.
  intros Hi Hn Hl Hc. destruct h as [j hook|f].
  - destruct Hc as (ij & f & Hj & Hp). unfold eval, run_handler.
    erewrite bind_Ret; [| run; rewrite Hj; reflexivity].
    rewrite Hp. by eapply run_callback_returns.
  - by eapply run_callback_returns.
Qed.

Lemma run_handlers_return hs : ∀ w self i n,
  heap w !! self = Some i → overlay i = Some n → n < length (nodes w) →
  Forall (callable (heap w)) hs →
  eval (for_each hs (run_handler (PInst self))) w = Ret tt.
Proof.
  induction hs as [|h hs IH]; intros w self i n Hi Hn Hl Hf; [reflexivity|].
  inversion Hf as [|? ? Hh Hf']; subst.
  pose proof (run_handler_returns w self i n h Hi Hn Hl Hh) as Hr.
  pose proof (run_handler_keeps_objects (PInst self) h w) as Ho.
  pose proof (run_handler_keeps_overlays (PInst self) h w) as Hv.
  apply objects_heap in Ho. apply overlays_length in Hv.
  unfold eval in *. simpl. unfold bind.
  destruct (run_handler (PInst self) h w) as [r w1]. simpl in *. subst r.
  eapply IH; rewrite ?Ho, ?Hv; eauto.
Qed.

Lemma stop_returns w self e n x :
  attached w self e n x →
  Forall (callable (heap w)) (handlers_for w LoadingStop e) →
  eval (stop self) w = Ret tt.
Proof.
  intros (i & Hi & He & Hn & Hx) Hf. unfold eval, stop.
  erewrite bind_Ret by (by eapply jq_spec). unfold trigger. run.
  eapply run_handlers_return; fields; eauto. by eapply lookup_lt_Some.
Qed.

Lemma stop_fired w self i e :
  heap w !! self = Some i → element i = Some e →
  fired (exec (stop self) w) = fired w ++ [(e, LoadingStop, PInst self)].
Proof.
  intros Hi He. unfold exec, stop. erewrite bind_Ret by (by eapply jq_spec).
  apply trigger_fired.
Qed.

Lemma stop_keeps_objects self : keeps objects (stop self).
Proof. keeps_tac side_length. Qed.



Lemma notify_fired w self i e n :
  heap w !! self = Some i → element i = Some e →
  fired (exec (run_click n (ClickNotify self)) w)
  = fired w ++ [(e, LoadingClick, PNode n)].
Proof.
  intros Hi He. unfold exec, run_click.
  erewrite bind_Ret by (by eapply jq_spec). apply trigger_fired.
Qed.


Lemma click_overlay_spec w n x :
  nodes w !! n = Some x →
  click_overlay n w = for_each (click x) (run_click n) w.
Proof. intros Hx. unfold click_overlay. run. by rewrite Hx. Qed.

Lemma constructed_attached w e ents :
  attached (constructed w e ents) (length (heap w)) e (length (nodes w))
           (constructed_node w e ents).
Proof.
  eexists. unfold constructed. fields.
  split; [apply lookup_snoc|]. fields. repeat split. apply lookup_snoc.
Qed.

Lemma click_fired w self e n x (stoppable : bool) :
  attached w self e n x → click x = clicks self stoppable →
  (stoppable = true → eval (stop self) w = Ret tt) →
  fired (exec (click_overlay n) w)
  = fired w ++ (if stoppable then [(e, LoadingStop, PInst self)] else [])
            ++ [(e, LoadingClick, PNode n)].
Proof.
  intros (i & Hi & He & Hn & Hx) Hc Hs. unfold exec.
  rewrite (click_overlay_spec w n x Hx), Hc. unfold clicks.
  destruct stoppable.
  - specialize (Hs eq_refl). simpl app.
    change (for_each [ClickStop self; ClickNotify self] (run_click n) w)
      with ((stop self >> for_each [ClickNotify self] (run_click n)) w).
    pose proof (stop_fired w self i e Hi He) as Hf.
    pose proof (stop_keeps_objects self w) as Ho. apply objects_heap in Ho.
    unfold eval, exec in *. unfold bind.
    destruct (stop self w) as [r w1]. cbn [fst snd] in *. subst r.
    rewrite for_each_one.
    pose proof (notify_fired w1 self i e n) as Hk. unfold exec in Hk.
    rewrite Hk; [|by rewrite Ho|done]. rewrite Hf.
    by rewrite <- app_assoc.
  - simpl app. rewrite for_each_one.
    pose proof (notify_fired w self i e n Hi He) as Hk. exact Hk.
Qed.



(** ** Merging settings *)

Lemma prop_extend (a b : object) k :
  prop (extend a b) k
  = match b !! k with
    | Some v => if decide (v = VUndefined) then prop a k else v
    | None => prop a k
    end.
Proof.
  unfold prop, extend. rewrite lookup_union, map_lookup_filter.
  destruct (b !! k) as [v|]; simpl.
  - case_guard; simpl in *.
    + rewrite decide_False by done. by destruct (a !! k).
    + rewrite decide_True by done. by destruct (a !! k).
  - by destruct (a !! k).
Qed.

Lemma prop_empty k : prop ∅ k = VUndefined.
Proof. unfold prop. by rewrite lookup_empty. Qed.

Lemma prop_copy (a : object) k : prop (extend ∅ a) k = prop a k.
Proof.
  rewrite prop_extend, prop_empty. unfold prop.
  destruct (a !! k) as [v|]; [|done]. simpl. by case_decide.
Qed.

Lemma prop_merged (a b : object) k :
  prop (extend (extend ∅ a) b) k
  = match b !! k with
    | Some v => if decide (v = VUndefined) then prop a k else v
    | None => prop a k
    end.
Proof. rewrite prop_extend. by rewrite prop_copy. Qed.

Lemma prop_insert_ne (s : object) k k' v :
  k ≠ k' → prop (<[k := v]> s) k' = prop s k'.
Proof. intros H. unfold prop. by rewrite lookup_insert_ne. Qed.

Lemma options_spec w self i p :
  heap w !! self = Some i →
  options self (AObj p) w
  = (Ret tt,
     with_heap (<[self := with_settings (extend (extend ∅ (settings i)) p) i]>
                  (heap w)) w).
Proof.
  intros Hi. unfold options, merged, entries. run. rewrite Hi. run. by rewrite Hi.
Qed.

(** ** Resizing *)

Lemma resize_keeps_shape self : keeps shape (resize self).
Proof. keeps_tac ltac:(unfold shape; fields; rewrite ?length_insert; reflexivity). Qed.

Lemma resized_shape w w' e i :
  page w' = page w → resized w' e i = resized w e i.
Proof. intros H. unfold resized. by rewrite H. Qed.

Lemma resize_all l : ∀ w,
  tidy l w →
  eval (for_each l resize) w = Ret tt
  ∧ ∀ self, self ∈ l → fitted (exec (for_each l resize) w) self.
Proof.
  induction l as [|s l IH] using rev_ind; intros w [Ha Hd].
  - split; [reflexivity|]. intros self Hin. by apply elem_of_nil in Hin.
  - destruct (IH w) as [Hr Hf].
    { split.
      - intros self Hin. apply Ha. apply elem_of_app. by left.
      - intros s1 s2 i1 i2 H1 H2. apply Hd; apply elem_of_app; by left. }
    pose proof (keeps_for_each shape l resize resize_keeps_shape w) as Hk.
    unfold eval, exec in *. rewrite for_each_app. unfold bind.
    destruct (for_each l resize w) as [r w1]. cbn [fst snd] in *. subst r.
    rewrite for_each_one.
    unfold shape in Hk. injection Hk as Hh Hp Hl.
    destruct (Ha s) as (e & n & x & i & Hi & He & Hn & Hx).
    { apply elem_of_app. right. by apply list_elem_of_singleton. }
    assert (Hlt : n < length (nodes w1)).
    { rewrite Hl. by eapply lookup_lt_Some. }
    destruct (lookup_lt_is_Some_2 _ _ Hlt) as [x1 Hx1].
    rewrite (resize_spec w1 s i e n x1) by (rewrite ?Hh; done).
    cbn [fst snd]. split; [reflexivity|].
    assert (Hs : fitted
      (with_nodes (<[n:=with_box (resized w1 e i) x1]> (nodes w1)) w1) s).
    { exists i, e, n, (with_box (resized w1 e i) x1). fields.
      rewrite Hh. repeat split; try done.
      by apply list_lookup_insert_eq. }
    intros self Hin. apply elem_of_app in Hin as [Hin|Hin].
    + destruct (Hf self Hin) as (i' & e' & n' & x' & Hi' & He' & Hn' & Hx' & Hb).
      destruct (decide (n' = n)) as [->|Hne].
      * assert (self = s) as ->; [|exact Hs].
        rewrite Hh in Hi'.
        eapply Hd; eauto.
        -- apply elem_of_app. by left.
        -- apply elem_of_app. right. by apply list_elem_of_singleton.
        -- congruence.
      * exists i', e', n', x'. fields. repeat split; try done.
        by rewrite list_lookup_insert_ne.
    + apply list_elem_of_singleton in Hin. by subst.
Qed.

(** ** The example pages *)

Lemma shown_page_node : nodes shown_page !! 0 = Some shown_node.
Proof. vm_compute. reflexivity. Qed.

Lemma shown_page_attached : attached shown_page 0 1 0 shown_node.
Proof. eexists. vm_compute. repeat split; reflexivity. Qed.

Lemma shown_page_start_handlers :
  handlers_for shown_page LoadingStart 1 = [HSettings 0 "onStart"].
Proof. vm_compute. reflexivity. Qed.

Lemma shown_page_stop_handlers :
  handlers_for shown_page LoadingStop 1 = [HSettings 0 "onStop"].
Proof. vm_compute. reflexivity. Qed.

Lemma shown_page_default_handlers : default_handlers shown_page 1.
Proof.
  unfold default_handlers.
  rewrite shown_page_start_handlers, shown_page_stop_handlers.
  repeat split; try discriminate; repeat constructor; eexists; vm_compute;
    split; reflexivity.
Qed.

Lemma shown_node_consistent : consistent shown_node.
Proof. intros H. reflexivity. Qed.

Lemma start_fired w self i e :
  heap w !! self = Some i → element i = Some e →
  fired (exec (start self) w) = fired w ++ [(e, LoadingStart, PInst self)].
Proof.
  intros Hi He. unfold exec, start. erewrite bind_Ret by (by eapply jq_spec).
  apply trigger_fired.
Qed.

Lemma trigger_no_handlers w e ev p :
  handlers_for w ev e = [] →
  trigger e ev p w = (Ret tt, with_fired (fired w ++ [(e, ev, p)]) w).
Proof.
  intros H. unfold trigger. run.
  change (handlers_for (with_fired (fired w ++ [(e, ev, p)]) w) ev e)
    with (handlers_for w ev e).
  by rewrite H.
Qed.

(** ** Steps that may add to the page *)

Section Leads.
Context (R : world → world → Prop).
Context (R_refl : ∀ w, R w w).
Context (R_trans : ∀ a b c, R a b → R b c → R a c).

Lemma leads_ret {A} (a : A) : leads R (ret a).
Proof. intros w. apply R_refl. Qed.

Lemma leads_throw {A} (e : error) : leads R (@throw A e).
Proof. intros w. apply R_refl. Qed.

Lemma leads_gets {A} (g : world → A) : leads R (gets g).
Proof. intros w. apply R_refl. Qed.

Lemma leads_must {A} (o : option A) : leads R (must o).
Proof. destruct o; intros w; apply R_refl. Qed.

Lemma leads_modify (g : world → world) :
  (∀ w, R w (g w)) → leads R (modify g).
Proof. intros H w. apply H. Qed.

Lemma leads_bind {A C} (m : M A) (k : A → M C) :
  leads R m → (∀ a, leads R (k a)) → leads R (bind m k).
Proof.
  intros Hm Hk w. unfold bind. specialize (Hm w).
  destruct (m w) as [[a|e] w']; simpl in *.
  - eapply R_trans; [exact Hm | apply Hk].
  - exact Hm.
Qed.

Lemma leads_for_each {A} (l : list A) (g : A → M unit) :
  (∀ x, leads R (g x)) → leads R (for_each l g).
Proof.
  intros H. induction l as [|x l IH]; simpl.
  - apply leads_ret.
  - apply leads_bind; [apply H | intros _; apply IH].
Qed.

Lemma leads_get_inst self : leads R (get_inst self).
Proof.
  unfold get_inst. apply leads_bind; [apply leads_gets|].
  intros h. destruct (h !! self); [apply leads_ret | apply leads_throw].
Qed.

Lemma leads_get_node n : leads R (get_node n).
Proof.
  unfold get_node. apply leads_bind; [apply leads_gets|].
  intros h. destruct (h !! n); [apply leads_ret | apply leads_throw].
Qed.

Lemma leads_update_inst self g :
  (∀ w i, heap w !! self = Some i →
          R w (with_heap (<[self := g i]> (heap w)) w)) →
  leads R (update_inst self g).
Proof.
  intros H w. unfold update_inst, get_inst, bind, gets, modify. simpl.
  destruct (heap w !! self) eqn:E; simpl; [by apply H | apply R_refl].
Qed.

Lemma leads_update_node n g :
  (∀ w x, nodes w !! n = Some x →
          R w (with_nodes (<[n := g x]> (nodes w)) w)) →
  leads R (update_node n g).
Proof.
  intros H w. unfold update_node, get_node, bind, gets, modify. simpl.
  destruct (nodes w !! n) eqn:E; simpl; [by apply H | apply R_refl].
Qed.

End Leads.

Ltac leads_step refl trans side :=
  lazymatch goal with
  | |- leads _ (ret _) => apply leads_ret, refl
  | |- leads _ (throw _) => apply leads_throw, refl
  | |- leads _ (gets _) => apply leads_gets, refl
  | |- leads _ (must _) => apply leads_must, refl
  | |- leads _ (get_inst _) => apply leads_get_inst; [apply refl | apply trans]
  | |- leads _ (get_node _) => apply leads_get_node; [apply refl | apply trans]
  | |- leads _ (bind _ _) => apply leads_bind; [apply trans | | intros ? ]
  | |- leads _ (for_each _ _) =>
      apply leads_for_each; [apply refl | apply trans | intros ? ]
  | |- leads _ (modify _) => apply leads_modify; intros ?; side
  | |- leads _ (update_inst _ _) =>
      apply leads_update_inst; [apply refl | intros ? ? ?; side]
  | |- leads _ (update_node _ _) =>
      apply leads_update_node; [apply refl | intros ? ? ?; side]
  | |- leads _ (match ?x with _ => _ end) => destruct x
  | |- leads _ _ => progress autounfold with plugin
  end.

Ltac leads_tac refl trans side := repeat leads_step refl trans side.

Lemma adds_hidden_refl w : adds_hidden w w.
Proof. exists 0. simpl. by rewrite app_nil_r. Qed.

Lemma adds_hidden_trans a b c :
  adds_hidden a b → adds_hidden b c → adds_hidden a c.
Proof.
  intros [c1 H1] [c2 H2]. exists (c1 + c2).
  by rewrite H2, H1, replicate_add, app_assoc.
Qed.

Lemma same_adds_hidden w w' : visibility w' = visibility w → adds_hidden w w'.
Proof. intros H. exists 0. simpl. by rewrite app_nil_r. Qed.

Ltac side_adds :=
  first
    [ apply same_adds_hidden; unfold visibility; fields; reflexivity
    | apply same_adds_hidden; unfold visibility; fields;
      eapply visibility_insert; [eassumption | reflexivity | reflexivity]
    | exists 1; unfold visibility; fields; by rewrite map_app ].

Ltac adds_tac := leads_tac adds_hidden_refl adds_hidden_trans side_adds.

Lemma init_adds_hidden self : leads adds_hidden (init self).
Proof. adds_tac. Qed.

Lemma Loading_adds_hidden self el o : leads adds_hidden (Loading self el o).
Proof. adds_tac. Qed.

Lemma active_keeps_visibility self : keeps visibility (active self).
Proof. keeps_tac side_visibility. Qed.

Lemma init_keeps_fired self : keeps fired (init self).
Proof. keeps_tac side_length. Qed.

(** What is not [start], [stop], [toggle] or [settings.apply] adds hidden
    overlays at most. *)
Lemma invoke_adds_hidden w self i name args :
  heap w !! self = Some i → quiet (member_of i name) →
  adds_hidden w (exec (invoke self name args) w).
Proof.
  intros Hi Hq. unfold exec, invoke, bind at 1, get_inst, bind, gets. simpl.
  rewrite Hi. simpl.
  destruct (member_of i name) as [[m| | |f|]|]; try apply adds_hidden_refl.
  - destruct m; try done; simpl.
    + apply init_adds_hidden.
    + assert (H : leads adds_hidden (initOverlay self)) by adds_tac.
      apply H.
    + apply same_adds_hidden.
      apply attachMethodsToExternalEvents_keeps_visibility.
    + apply same_adds_hidden. apply attachOptionsHandlers_keeps_visibility.
    + apply same_adds_hidden. apply resize_keeps_visibility.
    + apply same_adds_hidden.
      assert (H : keeps visibility (let! _ := active self in ret tt))
        by keeps_tac side_visibility.
      apply H.
    + apply same_adds_hidden. apply options_keeps_visibility.
  - apply Loading_adds_hidden.
  - done.
Qed.

(** ** Dispatch that fires nothing *)

Lemma invoke_quiet_keeps_visibility w self i name args :
  heap w !! self = Some i → quiet (member_of i name) →
  ¬ builds_overlay (AStr name) →
  visibility (exec (invoke self name args) w) = visibility w.
Proof.
  intros Hi Hq Hb. unfold exec, invoke, bind at 1, get_inst, bind, gets.
  simpl. rewrite Hi. simpl.
  destruct (member_of i name) as [[m| | |f|]|] eqn:E; try reflexivity.
  - apply member_of_Method in E. destruct m; try done; simpl.
    + apply assoc_prototype_init in E. subst. exfalso. apply Hb.
      simpl. set_solver.
    + apply assoc_prototype_initOverlay in E. subst. exfalso. apply Hb.
      simpl. set_solver.
    + apply attachMethodsToExternalEvents_keeps_visibility.
    + apply attachOptionsHandlers_keeps_visibility.
    + apply resize_keeps_visibility.
    + assert (H : keeps visibility (let! _ := active self in ret tt))
        by keeps_tac side_visibility.
      apply H.
    + apply options_keeps_visibility.
  - apply member_of_Constructor in E. subst. exfalso. apply Hb.
    simpl. set_solver.
  - done.
Qed.

Lemma Loading_keeps_fired self el o : keeps fired (Loading self el o).
Proof. keeps_tac side_length. Qed.

Lemma invoke_quiet_keeps_fired w self i name args :
  heap w !! self = Some i → quiet (member_of i name) →
  fired (exec (invoke self name args) w) = fired w.
Proof.
  intros Hi Hq. unfold exec, invoke, bind at 1, get_inst, bind, gets.
  simpl. rewrite Hi. simpl.
  destruct (member_of i name) as [[m| | |f|]|]; try reflexivity.
  - assert (H : keeps fired (call_method self m args)).
    { destruct m; try done; keeps_tac side_length. }
    apply H.
  - apply Loading_keeps_fired.
  - done.
Qed.

(** ** A new overlay in the place of the old one *)

Lemma active_hidden w self i n x :
  heap w !! self = Some i → overlay i = Some n → nodes w !! n = Some x →
  displayed x = false → eval (active self) w = Ret false.
Proof.
  intros Hi Hn Hx Hd. unfold eval, active. run. rewrite Hi. run. rewrite Hn.
  run. rewrite Hx. unfold is_visible. by rewrite Hd.
Qed.

Ltac build Hi He :=
  repeat (progress (run; rewrite ?Hi, ?He, ?lookup_snoc, ?insert_snoc,
                      ?list_lookup_insert_eq by done)).

Lemma initOverlay_hidden w self i e :
  heap w !! self = Some i → element i = Some e →
  eval (initOverlay self) w = Ret tt
  ∧ fired (exec (initOverlay self) w) = fired w
  ∧ eval (active self) (exec (initOverlay self) w) = Ret false.
Proof.
  intros Hi He.
  assert (Hlt : self < length (heap w)) by (by eapply lookup_lt_Some).
  destruct w as [pg ly df dt hp ns bd bo rs rd fi lg]. fields.
  unfold eval, exec, active, initOverlay, resize. build Hi He.
  destruct (attr_id (pg e)) as [a|]; [destruct (truthy (VStr a))|];
    build Hi He;
    destruct (truthy (prop (settings i) "fullPage"));
    build Hi He; repeat split; reflexivity.
Qed.

Lemma init_hidden w self i e :
  heap w !! self = Some i → element i = Some e →
  eval (init self) w = Ret tt
  ∧ fired (exec (init self) w) = fired w
  ∧ eval (active self) (exec (init self) w) = Ret false.
Proof.
  intros Hi He.
  assert (Hlt : self < length (heap w)) by (by eapply lookup_lt_Some).
  destruct w as [pg ly df dt hp ns bd bo rs rd fi lg]. fields.
  unfold eval, exec, active, init, initOverlay, resize,
    attachMethodsToExternalEvents, attachOptionsHandlers, on.
  build Hi He.
  destruct (attr_id (pg e)) as [a|]; [destruct (truthy (VStr a))|];
    build Hi He;
    destruct (truthy (prop (settings i) "fullPage"));
    build Hi He;
    destruct (truthy (prop (settings i) "stoppable"));
    build Hi He; repeat split; reflexivity.
Qed.

(** ** [toggle] is [stop] or [start] *)

Lemma toggle_spec w self e n x :
  attached w self e n x →
  toggle self w = if is_visible w n x then stop self w else start self w.
Proof.
  intros Ha. unfold toggle, bind. rewrite (active_spec w self e n x Ha).
  by destruct (is_visible w n x).
Qed.

Lemma start_no_handlers w self i e :
  heap w !! self = Some i → element i = Some e →
  handlers_for w LoadingStart e = [] →
  visibility (exec (start self) w) = visibility w.
Proof.
  intros Hi He Hh. unfold exec, start.
  erewrite bind_Ret by (by eapply jq_spec). by rewrite trigger_no_handlers.
Qed.

Lemma stop_no_handlers w self i e :
  heap w !! self = Some i → element i = Some e →
  handlers_for w LoadingStop e = [] →
  visibility (exec (stop self) w) = visibility w.
Proof.
  intros Hi He Hh. unfold exec, stop.
  erewrite bind_Ret by (by eapply jq_spec). by rewrite trigger_no_handlers.
Qed.

Lemma toggle_no_handlers w self i e :
  heap w !! self = Some i → element i = Some e →
  handlers_for w LoadingStart e = [] → handlers_for w LoadingStop e = [] →
  visibility (exec (toggle self) w) = visibility w.
Proof.
  intros Hi He Hs Hp. unfold exec, toggle, bind.
  pose proof (active_pure self w) as Hw. unfold exec in Hw.
  destruct (active self w) as [[a|err] w'] eqn:E; simpl in Hw; subst w'.
  - destruct a; [by eapply stop_no_handlers | by eapply start_no_handlers].
  - reflexivity.
Qed.

Lemma window_resize_keeps_visibility : keeps visibility window_resize.
Proof.
  unfold window_resize. apply keeps_bind; [apply keeps_gets|]. intros hs.
  apply keeps_for_each. intros self. apply resize_keeps_visibility.
Qed.

Lemma document_ready_keeps_visibility : keeps visibility document_ready.
Proof.
  unfold document_ready. apply keeps_bind; [apply keeps_gets|]. intros hs.
  apply keeps_for_each. intros self. apply resize_keeps_visibility.
Qed.
(** * The claims *)

(** ** C1: the [start] option *)

(** C1 (defect of the code).  The claim: with [start: false] in the
    options passed at attach time, the plugin object is inactive when the
    attach call returns.  The code never reads a [start] option: line 248
    starts the plugin object whenever the argument is no method name.
    Whatever value [start] has, the object attached to the test division
    is active when [$.fn.loading] returns. *)
Theorem start_option_ignored (v : value) :
  let w := exec (loading [1] (AObj {["start" := v]}) []) (fresh test_page) in
  eval (loading [1] (AObj {["start" := v]}) []) (fresh test_page) = Ret tt
  ∧ data w !! 1 = Some 0
  ∧ fired w = [(1, LoadingStart, PInst 0)]
  ∧ eval (active 0) w = Ret true.
Proof. destruct v; vm_compute; repeat split; reflexivity. Qed.

(** ** C2: payloads of the notifications *)

(** C2 (defect of the code).  The claim: each of the three notifications
    carries the plugin object, and [start()] and [stop()] fire theirs once
    per call.  [start] and [stop] do: each call adds exactly one
    notification, with the plugin object as payload.  The click handler of
    line 129 passes [this], which in a jQuery handler is the clicked DOM
    element: [loading.click] carries the overlay element, not the plugin
    object. *)
Theorem notification_payloads w self e n x :
  attached w self e n x →
  fired (exec (start self) w) = fired w ++ [(e, LoadingStart, PInst self)]
  ∧ fired (exec (stop self) w) = fired w ++ [(e, LoadingStop, PInst self)]
  ∧ (click x = clicks self false →
     fired (exec (click_overlay n) w)
     = fired w ++ [(e, LoadingClick, PNode n)]
     ∧ PNode n ≠ PInst self).
Proof.
  intros Ha. pose proof Ha as (i & Hi & He & Hn & Hx).
  split; [by eapply start_fired|]. split; [by eapply stop_fired|].
  intros Hc. split; [|discriminate].
  by rewrite (click_fired w self e n x false Ha Hc).
Qed.

Lemma notification_payloads_witness :
  fired (exec (start 0) shown_page)
  = fired shown_page ++ [(1, LoadingStart, PInst 0)]
  ∧ fired (exec (stop 0) shown_page)
    = fired shown_page ++ [(1, LoadingStop, PInst 0)]
  ∧ fired (exec (click_overlay 0) shown_page)
    = fired shown_page ++ [(1, LoadingClick, PNode 0)]
  ∧ PNode 0 ≠ PInst 0.
Proof.
  destruct (notification_payloads shown_page 0 1 0 shown_node)
    as (H1 & H2 & H3).
  - eexists. vm_compute. repeat split; reflexivity.
  - split; [exact H1|]. split; [exact H2|]. apply H3. reflexivity.
Defined.

(** ** C3: the [:loading] selector *)

(** C3.  The selector answers [true] exactly for the elements that hold a
    plugin object whose [active()] answers [true]; an element that holds
    none is reported as not loading; the query leaves the page as it is. *)
Theorem loading_selector w e :
  (eval (expr_loading e) w = Ret true
   ↔ ∃ l, data w !! e = Some l ∧ eval (active l) w = Ret true)
  ∧ (data w !! e = None → eval (expr_loading e) w = Ret false)
  ∧ exec (expr_loading e) w = w.
Proof.
  split; [|split].
  - unfold eval, expr_loading. run. destruct (data w !! e) as [l|].
    + split; [intros H; by exists l|]. by intros (l' & [= <-] & H).
    + split; [discriminate|]. by intros (l' & [=] & H).
  - intros H. unfold eval, expr_loading. run. by rewrite H.
  - apply expr_loading_pure.
Qed.

Lemma loading_selector_witness :
  eval (expr_loading 0) shown_page = Ret false
  ∧ eval (expr_loading 1) shown_page = Ret true.
Proof.
  split.
  - apply (proj1 (proj2 (loading_selector shown_page 0))).
    vm_compute. reflexivity.
  - apply (proj1 (loading_selector shown_page 1)).
    exists 0. vm_compute. split; reflexivity.
Defined.

(** ** C4: attaching again *)

(** C4 as stated fails: the repeat call dispatches to any method of the
    prototype, [init] and [initOverlay] among them, and these build an
    overlay.  [$('#test-div').loading()] followed by
    [$('#test-div').loading('init')] leaves two overlay elements in the
    body, for one plugin object. *)
Lemma second_overlay_by_init :
  let w := exec (loading [1] (AStr "init") []) attached_page in
  data attached_page !! 1 = Some 0
  ∧ body attached_page = [0]
  ∧ eval (loading [1] (AStr "init") []) attached_page = Ret tt
  ∧ length (heap w) = 1
  ∧ body w = [1; 0] ∧ length (nodes w) = 2.
Proof. vm_compute. repeat split; reflexivity. Qed.

(** C4 (amended).  On an element that holds a plugin object, the attach
    call constructs no plugin object: the element holds the same object
    and no object is added.  The call is the dispatch alone: the named
    operation when the argument is a string, a start request otherwise.
    No overlay element is created either, unless the named operation is
    one that builds an overlay itself ([init], [initOverlay], or the
    inherited [constructor]). *)
Theorem attach_again w e l o args :
  data w !! e = Some l →
  let w' := exec (loading [e] o args) w in
  data w' = data w
  ∧ length (heap w') = length (heap w)
  ∧ (¬ builds_overlay o →
     body w' = body w ∧ length (nodes w') = length (nodes w))
  ∧ loading [e] o args w
    = match o with
      | AStr name => invoke l name args
      | _ => start l
      end w.
Proof.
  intros Hd w'. subst w'. unfold exec.
  rewrite (loading_attached w e l o args Hd).
  assert (Hi : identity (match o with
                         | AStr name => invoke l name args
                         | _ => start l
                         end w).2 = identity w).
  { destruct o; try apply start_keeps_identity. apply invoke_keeps_identity. }
  unfold identity in Hi. injection Hi as Hi1 Hi2.
  repeat split; try done.
  - assert (Ho : overlays (match o with
                           | AStr name => invoke l name args
                           | _ => start l
                           end w).2 = overlays w).
    { destruct o; try apply start_keeps_overlays.
      by apply invoke_keeps_overlays. }
    unfold overlays in Ho. congruence.
  - assert (Ho : overlays (match o with
                           | AStr name => invoke l name args
                           | _ => start l
                           end w).2 = overlays w).
    { destruct o; try apply start_keeps_overlays.
      by apply invoke_keeps_overlays. }
    unfold overlays in Ho. congruence.
Qed.

Lemma attach_again_witness :
  let w' := exec (loading [1] (AStr "toggle") []) attached_page in
  data w' = data attached_page
  ∧ length (heap w') = length (heap attached_page)
  ∧ body w' = body attached_page
  ∧ length (nodes w') = length (nodes attached_page).
Proof.
  destruct (attach_again attached_page 1 0 (AStr "toggle") [])
    as (H1 & H2 & H3 & _).
  - vm_compute. reflexivity.
  - destruct H3 as [H3 H4].
    + simpl. intros H. vm_compute in H.
      repeat (apply elem_of_cons in H as [H|H]; [discriminate|]).
      by apply elem_of_nil in H.
    + split; [exact H1|]. split; [exact H2|]. split; [exact H3|exact H4].
Defined.

(** ** C5: [start], [stop] and [active] *)

(** C5 (defect of the code).  The claim: with the default handlers,
    [active()] reports [true] once [start()] has returned and [false]
    once [stop()] has returned.  [active()] is the overlay's visibility,
    read when it is called: the overlay is displayed and its box is not
    empty.  After [start()] it is displayed.  But the default [onStop]
    only starts a fade-out of 150 ms, and jQuery hides the element when
    the effect ends: when [stop()] has returned, [active()] answers what
    it answered before the call, [true] on a visible overlay.  On an
    overlay at rest it goes on answering so while time alone passes, and
    answers [false] from the first tick of the effects timer that comes
    150 ms or more after the call.  The unit tests [active flag] and
    [:loading selector] read [false] as soon as [stop] has returned. *)
Theorem start_stop_active w self e n x :
  attached w self e n x → consistent x → default_handlers w e →
  eval (active self) w = Ret (displayed x && layout w n (box x))
  ∧ (eval (start self) w = Ret tt
     ∧ eval (active self) (exec (start self) w) = Ret (layout w n (box x)))
  ∧ (eval (stop self) w = Ret tt
     ∧ eval (active self) (exec (stop self) w) = eval (active self) w)
  ∧ (fx x = [] → displayed x = true →
     ∀ t, eval (active self) (elapse t (exec (stop self) w))
          = Ret (layout w n (box x))
          ∧ eval (active self) (fx_tick (elapse t (exec (stop self) w)))
            = Ret ((t <? 150) && layout w n (box x))).
Proof.
  intros Ha Hc (Hs1 & Hs2 & Hp1 & Hp2).
  pose proof Ha as (i & Hi & He & Hn & Hx).
  assert (H0 : eval (active self) w = Ret (displayed x && layout w n (box x)))
    by (unfold eval; by erewrite active_spec).
  split; [exact H0|].
  assert (Hlen : n < length (nodes w)) by (by eapply lookup_lt_Some).
  split; [|rewrite H0].
  - unfold eval, exec, start. erewrite bind_Ret by (by eapply jq_spec).
    erewrite trigger_fades by eauto. split; [reflexivity|].
    cbn [snd].
    destruct (handlers_for w LoadingStart e) as [|h hs] eqn:Eh; [done|].
    erewrite active_spec.
    2:{ exists i. fields. repeat split; try done.
        by apply list_lookup_insert_eq. }
    cbn [fst length]. unfold is_visible. fields.
    by rewrite faded_in_displayed, faded_box.
  - unfold eval, exec, stop. erewrite bind_Ret by (by eapply jq_spec).
    erewrite trigger_fades by eauto. cbn [fst snd].
    set (y := Nat.iter _ _ x).
    set (w' := with_nodes _ _).
    assert (Hy : attached w' self e n y).
    { exists i. subst w'. fields. repeat split; try done.
      by apply list_lookup_insert_eq. }
    split; [split; [reflexivity|]|].
    + erewrite active_spec by exact Hy. cbn [fst]. unfold is_visible.
      subst y w'. fields. by rewrite faded_out_displayed, faded_box.
    + intros Hq Hd t.
      destruct (handlers_for w LoadingStop e) as [|h hs] eqn:Eh; [done|].
      cbn [length] in y. split.
      * erewrite active_spec by (apply attached_elapse, Hy).
        cbn [fst]. unfold is_visible. subst y w'. unfold elapse. fields.
        by rewrite faded_out_displayed, faded_box, Hd.
      * erewrite active_spec by (apply attached_fx_tick, attached_elapse, Hy).
        cbn [fst]. unfold is_visible. fields. subst y.
        rewrite (ticked_from_rest FadeOut 150 (length hs) x t) by done.
        subst w'. unfold fx_tick, elapse. fields. rewrite faded_box.
        by destruct (t <? 150).
Qed.

Lemma start_stop_active_witness :
  eval (active 0) shown_page = Ret true
  ∧ eval (active 0) (exec (start 0) shown_page) = Ret true
  ∧ eval (stop 0) shown_page = Ret tt
  ∧ eval (active 0) (exec (stop 0) shown_page) = Ret true
  ∧ eval (active 0) (elapse 156 (exec (stop 0) shown_page)) = Ret true
  ∧ eval (active 0) (fx_tick (elapse 149 (exec (stop 0) shown_page)))
    = Ret true
  ∧ eval (active 0) (fx_tick (elapse 156 (exec (stop 0) shown_page)))
    = Ret false.
Proof.
  destruct (start_stop_active shown_page 0 1 0 shown_node)
    as (H1 & (_ & H2) & (H3 & H4) & H5).
  - apply shown_page_attached.
  - apply shown_node_consistent.
  - apply shown_page_default_handlers.
  - split; [rewrite H1; vm_compute; reflexivity|].
    split; [rewrite H2; vm_compute; reflexivity|].
    split; [exact H3|].
    split; [rewrite H4, H1; vm_compute; reflexivity|].
    split; [rewrite (proj1 (H5 eq_refl eq_refl 156)); vm_compute; reflexivity|].
    split; [rewrite (proj2 (H5 eq_refl eq_refl 149)); vm_compute; reflexivity|].
    rewrite (proj2 (H5 eq_refl eq_refl 156)); vm_compute; reflexivity.
Defined.

(** ** C6: clicks on the overlay *)




(** ** C7: merging settings *)

(** C7 as stated fails twice.  [$.extend] does not copy a key whose value
    is [undefined]: after [options({message: undefined})] the message is
    still the default one.  And the constructor overwrites [fullPage]
    after the merge: an override [fullPage: true] on an element that is
    not the body leaves [fullPage] false. *)
Lemma merge_exceptions :
  (∃ i, heap (exec (options 0 (AObj {["message" := VUndefined]}))
                   attached_page) !! 0 = Some i
        ∧ prop (settings i) "message" = VStr "Loading...")
  ∧ (∃ i, heap (exec (new_Loading (AElem 1)
                        (AObj {["fullPage" := VBool true]}))
                     (fresh test_page)) !! 0 = Some i
          ∧ prop (settings i) "fullPage" = VBool false).
Proof. split; eexists; vm_compute; split; reflexivity. Qed.

(** C7 (amended).  [options(partial)] merges shallowly: a key of the
    partial argument whose value is not [undefined] reads as the partial's
    value afterwards, every other key reads as before.  At construction
    the settings are the same merge of the defaults with the overrides,
    after which [fullPage] is set to whether the target element is the
    body. *)
Theorem settings_merge :
  (∀ w self i p,
     heap w !! self = Some i →
     ∃ i', heap (exec (options self (AObj p)) w) !! self = Some i'
       ∧ (∀ k v, p !! k = Some v → v ≠ VUndefined → prop (settings i') k = v)
       ∧ (∀ k, p !! k = None ∨ p !! k = Some VUndefined →
               prop (settings i') k = prop (settings i) k))
  ∧ (∀ w e o ents,
       entries o = Some ents →
       ∃ i', heap (exec (new_Loading (AElem e) o) w) !! length (heap w) = Some i'
         ∧ prop (settings i') "fullPage" = VBool (is_body (page w e))
         ∧ (∀ k v, k ≠ "fullPage" → ents !! k = Some v → v ≠ VUndefined →
                   prop (settings i') k = v)
         ∧ (∀ k, k ≠ "fullPage" →
                 ents !! k = None ∨ ents !! k = Some VUndefined →
                 prop (settings i') k = prop (defaults w) k)).
Proof.
  split.
  - intros w self i p Hi. eexists. unfold exec.
    rewrite (options_spec w self i p Hi). fields.
    split; [apply list_lookup_insert_eq; by eapply lookup_lt_Some|].
    fields. split.
    + intros k v Hk Hv. rewrite prop_merged, Hk. by rewrite decide_False.
    + intros k [Hk|Hk]; rewrite prop_merged, Hk; [done|].
      by rewrite decide_True.
  - intros w e o ents Ho. eexists. unfold exec.
    rewrite (new_Loading_spec w e o ents Ho). unfold constructed. fields.
    split; [apply lookup_snoc|]. fields. unfold constructed_settings.
    split; [apply prop_insert|]. split.
    + intros k v Hne Hk Hv. rewrite prop_insert_ne by done.
      rewrite prop_merged, Hk. by rewrite decide_False.
    + intros k Hne [Hk|Hk]; rewrite prop_insert_ne by done;
        rewrite prop_merged, Hk; [done|]. by rewrite decide_True.
Qed.

Lemma settings_merge_witness :
  (∃ i', heap (exec (options 0 (AObj {["message" := VStr "Wait"]}))
                    attached_page) !! 0 = Some i'
         ∧ prop (settings i') "message" = VStr "Wait"
         ∧ prop (settings i') "theme" = VStr "light")
  ∧ (∃ i', heap (exec (new_Loading (AElem 1)
                         (AObj {["theme" := VStr "dark"]}))
                      (fresh test_page)) !! 0 = Some i'
           ∧ prop (settings i') "fullPage" = VBool false
           ∧ prop (settings i') "theme" = VStr "dark"
           ∧ prop (settings i') "message" = VStr "Loading...").
Proof.
  destruct settings_merge as (H1 & H2). split.
  - destruct (H1 attached_page 0
                (Instance (Some 1)
                   (<["fullPage" := VBool false]>
                      (extend (extend ∅ Loading_defaults) ∅)) (Some 0))
                {["message" := VStr "Wait"]})
      as (i' & Hi & Hk & Ho).
    + vm_compute. reflexivity.
    + exists i'. split; [exact Hi|]. split.
      * apply Hk; [reflexivity | discriminate].
      * rewrite (Ho "theme"); [reflexivity | left; reflexivity].
  - destruct (H2 (fresh test_page) 1 (AObj {["theme" := VStr "dark"]})
                {["theme" := VStr "dark"]})
      as (i' & Hi & Hf & Hk & Ho).
    + reflexivity.
    + exists i'. split; [exact Hi|]. split; [exact Hf|]. split.
      * apply Hk; [discriminate | reflexivity | discriminate].
      * rewrite (Ho "message"); [reflexivity | discriminate | left; reflexivity].
Defined.

(** ** C8: [resize] *)

(** C8 as stated fails: [resize] tests the [fullPage] setting, which
    [options] can change, not the target element.  After
    [options({fullPage: true})] on the test division, which is not the
    body, [resize()] gives the overlay a width and height of ['100%']. *)
Lemma full_page_override :
  let w1 := exec (loading [1] (AStr "options")
                          [AObj {["fullPage" := VBool true]}]) attached_page in
  let w2 := exec (loading [1] (AStr "resize") []) w1 in
  is_body (page w2 1) = false
  ∧ box <$> nodes w2 !! 0 = Some (Some (Geometry 40 8 Full Full)).
Proof. vm_compute. split; reflexivity. Qed.

(** C8 (amended).  [resize()] sets the overlay's top and left to the
    current offset of the target element and its width and height to the
    element's outer width and height, or to ['100%'] when the [fullPage]
    setting of the plugin object is truthy.  Construction sets [fullPage]
    to whether the target element is the body and resizes the overlay
    accordingly; it registers the plugin object for the window's resize
    event and for the document's ready event, at each of which every
    registered plugin object is resized. *)
Theorem resize_geometry :
  (∀ w self i e n x,
     heap w !! self = Some i → element i = Some e → overlay i = Some n →
     nodes w !! n = Some x →
     eval (resize self) w = Ret tt
     ∧ nodes (exec (resize self) w) !! n
       = Some (with_box
           (let el := page w e in
            if truthy (prop (settings i) "fullPage")
            then Geometry (offset_top el) (offset_left el) Full Full
            else Geometry (offset_top el) (offset_left el)
                          (Px (outerWidth el)) (Px (outerHeight el))) x))
  ∧ (∀ w e o ents,
       entries o = Some ents →
       let w' := exec (new_Loading (AElem e) o) w in
       ∃ i x, heap w' !! length (heap w) = Some i
         ∧ element i = Some e ∧ overlay i = Some (length (nodes w))
         ∧ nodes w' !! length (nodes w) = Some x
         ∧ prop (settings i) "fullPage" = VBool (is_body (page w e))
         ∧ box x
           = Some (let el := page w e in
                   if is_body el
                   then Geometry (offset_top el) (offset_left el) Full Full
                   else Geometry (offset_top el) (offset_left el)
                                 (Px (outerWidth el)) (Px (outerHeight el)))
         ∧ length (heap w) ∈ on_resize w' ∧ length (heap w) ∈ on_ready w')
  ∧ (∀ w, tidy (on_resize w) w →
       eval window_resize w = Ret tt
       ∧ ∀ self, self ∈ on_resize w → fitted (exec window_resize w) self)
  ∧ (∀ w, tidy (on_ready w) w →
       eval document_ready w = Ret tt
       ∧ ∀ self, self ∈ on_ready w → fitted (exec document_ready w) self).
Proof.
  repeat split.
  - unfold eval. by erewrite resize_spec.
  - unfold exec. erewrite resize_spec by done. fields.
    apply list_lookup_insert_eq. by eapply lookup_lt_Some.
  - intros w e o ents Ho w'. subst w'. unfold exec.
    rewrite (new_Loading_spec w e o ents Ho). cbn [snd].
    eexists _, (constructed_node w e ents). unfold constructed. fields.
    split; [apply lookup_snoc|]. fields.
    repeat split; try apply lookup_snoc; try apply prop_insert.
    + unfold constructed_node, resized, constructed_settings. fields.
      by rewrite prop_insert, truthy_VBool.
    + apply elem_of_app. right. by apply list_elem_of_singleton.
    + apply elem_of_app. right. by apply list_elem_of_singleton.
  - unfold eval, window_resize. run. by apply resize_all.
  - unfold exec, window_resize. run. by apply resize_all.
  - unfold eval, document_ready. run. by apply resize_all.
  - unfold exec, document_ready. run. by apply resize_all.
Qed.

Lemma resize_geometry_witness :
  (eval (resize 0) shown_page = Ret tt
   ∧ box <$> nodes (exec (resize 0) shown_page) !! 0
     = Some (Some (Geometry 40 8 (Px 300) (Px 120))))
  ∧ (∃ i x, heap (exec (new_Loading (AElem 0) AUndefined) (fresh test_page))
                 !! 0 = Some i
            ∧ nodes (exec (new_Loading (AElem 0) AUndefined) (fresh test_page))
                    !! 0 = Some x
            ∧ prop (settings i) "fullPage" = VBool true
            ∧ box x = Some (Geometry 0 0 Full Full))
  ∧ fitted (exec window_resize shown_page) 0
  ∧ fitted (exec document_ready shown_page) 0.
Proof.
  destruct resize_geometry as (H1 & H2 & H3 & H4).
  assert (Ht : ∀ l, l = [0] → tidy l shown_page).
  { intros l ->. split.
    - intros self Hs. apply list_elem_of_singleton in Hs. subst self.
      exists 1, 0, shown_node. apply shown_page_attached.
    - intros s1 s2 i1 i2 Hs1 Hs2 _ _ _.
      apply list_elem_of_singleton in Hs1, Hs2. congruence. }
  split; [|split; [|split]].
  - destruct (H1 shown_page 0
                (Instance (Some 1)
                   (<["fullPage" := VBool false]>
                      (extend (extend ∅ Loading_defaults) ∅)) (Some 0))
                1 0 shown_node) as [Ha Hb].
    + vm_compute. reflexivity.
    + reflexivity.
    + reflexivity.
    + apply shown_page_node.
    + split; [exact Ha|]. rewrite Hb. reflexivity.
  - destruct (H2 (fresh test_page) 0 AUndefined ∅)
      as (i & x & Hi & _ & _ & Hx & Hf & Hb & _); [reflexivity|].
    exists i, x. split; [exact Hi|]. split; [exact Hx|].
    split; [exact Hf | exact Hb].
  - apply (H3 shown_page); [apply Ht; reflexivity|].
    vm_compute. apply list_elem_of_singleton. reflexivity.
  - apply (H4 shown_page); [apply Ht; reflexivity|].
    vm_compute. apply list_elem_of_singleton. reflexivity.
Defined.

(** ** C9: unknown operation names *)



(** ** C10: a new overlay is hidden *)

(** C10 as stated fails: what [active()] answers changes without any
    notification when the plugin object is given a new overlay.  After
    [$('#test-div').loading()] and the fade-in, the call
    [$('#test-div').loading('initOverlay')] fires nothing, leaves the
    overlay of before displayed in the body, and [active()] answers
    [false] where it answered [true]. *)
Lemma overlay_replaced :
  let w := exec (loading [1] (AStr "initOverlay") []) shown_page in
  eval (active 0) shown_page = Ret true
  ∧ eval (loading [1] (AStr "initOverlay") []) shown_page = Ret tt
  ∧ fired w = fired shown_page
  ∧ visibility w = visibility shown_page ++ [(false, [])]
  ∧ eval (active 0) w = Ret false.
Proof. vm_compute. repeat split; reflexivity. Qed.

(** C10 (amended).  Construction returns a plugin object whose overlay is
    new, hidden and at rest, so that [active()] answers [false]; it fires
    no notification and leaves the display states of the other overlays
    as they were.  No operation of the plugin changes the display state
    of an overlay by itself:
    - what [$.fn.loading] dispatches to by name, other than [start],
      [stop], [toggle] and a function the page stored under
      [settings.apply], fires no notification, leaves every overlay
      displayed and animated as it was and at most adds hidden overlays;
      it adds none unless the name is [init], [initOverlay] or
      [constructor];
    - a function stored under [settings.apply] is called as it is, with
      the plugin object;
    - [start()] and [stop()] record their notification and run the
      handlers it reaches, nothing else; with no handler to reach they
      change no display state;
    - [toggle()] is [stop()] when [active()] holds and [start()]
      otherwise;
    - the handlers of the window's resize and of document-ready change
      no display state.
    What [active()] answers can change without a notification all the
    same: [init()] and [initOverlay()] put a new, hidden overlay in the
    place of the plugin object's, and [active()] answers [false] after
    them. *)
Theorem constructed_hidden :
  (∀ w e o ents,
     entries o = Some ents →
     ∃ w', new_Loading (AElem e) o w = (Ret (length (heap w)), w')
       ∧ eval (active (length (heap w))) w' = Ret false
       ∧ fired w' = fired w
       ∧ visibility w' = visibility w ++ [(false, [])])
  ∧ (∀ w self i name args,
       heap w !! self = Some i →
       (quiet (member_of i name) →
        fired (exec (invoke self name args) w) = fired w
        ∧ adds_hidden w (exec (invoke self name args) w)
        ∧ (¬ builds_overlay (AStr name) →
           visibility (exec (invoke self name args) w) = visibility w))
       ∧ (∀ f, member_of i name = Some (Applied f) →
               invoke self name args w = run_callback f (PInst self) w))
  ∧ (∀ w self i e,
       heap w !! self = Some i → element i = Some e →
       start self w
       = for_each (handlers_for w LoadingStart e) (run_handler (PInst self))
           (with_fired (fired w ++ [(e, LoadingStart, PInst self)]) w)
       ∧ stop self w
         = for_each (handlers_for w LoadingStop e) (run_handler (PInst self))
             (with_fired (fired w ++ [(e, LoadingStop, PInst self)]) w)
       ∧ (handlers_for w LoadingStart e = [] →
          visibility (exec (start self) w) = visibility w)
       ∧ (handlers_for w LoadingStop e = [] →
          visibility (exec (stop self) w) = visibility w)
       ∧ (handlers_for w LoadingStart e = [] →
          handlers_for w LoadingStop e = [] →
          visibility (exec (toggle self) w) = visibility w))
  ∧ (∀ w self e n x,
       attached w self e n x →
       toggle self w
       = if displayed x && layout w n (box x) then stop self w
         else start self w)
  ∧ (∀ w, visibility (exec window_resize w) = visibility w
          ∧ visibility (exec document_ready w) = visibility w)
  ∧ (∀ w self i e,
       heap w !! self = Some i → element i = Some e →
       (eval (initOverlay self) w = Ret tt
        ∧ fired (exec (initOverlay self) w) = fired w
        ∧ eval (active self) (exec (initOverlay self) w) = Ret false)
       ∧ (eval (init self) w = Ret tt
          ∧ fired (exec (init self) w) = fired w
          ∧ eval (active self) (exec (init self) w) = Ret false)).
Proof.
  split; [|split; [|split; [|split; [|split]]]].
  - intros w e o ents Ho. exists (constructed w e ents).
    split; [by apply new_Loading_spec|]. split.
    + unfold eval. by erewrite active_spec by apply constructed_attached.
    + split; [reflexivity|]. unfold visibility, constructed. fields.
      by rewrite map_app.
  - intros w self i name args Hi. split.
    + intros Hq. split; [by eapply invoke_quiet_keeps_fired|].
      split; [by eapply invoke_adds_hidden|].
      intros Hb. by eapply invoke_quiet_keeps_visibility.
    + intros f Hm. unfold invoke, bind at 1, get_inst, bind, gets. simpl.
      rewrite Hi. simpl. by rewrite Hm.
  - intros w self i e Hi He. split; [|split; [|split; [|split]]].
    + unfold start. erewrite bind_Ret by (by eapply jq_spec).
      unfold trigger. run. reflexivity.
    + unfold stop. erewrite bind_Ret by (by eapply jq_spec).
      unfold trigger. run. reflexivity.
    + by eapply start_no_handlers.
    + by eapply stop_no_handlers.
    + by eapply toggle_no_handlers.
  - intros w self e n x Ha. by eapply toggle_spec.
  - intros w. split.
    + apply window_resize_keeps_visibility.
    + apply document_ready_keeps_visibility.
  - intros w self i e Hi He. split.
    + by eapply initOverlay_hidden.
    + by eapply init_hidden.
Qed.

Lemma constructed_hidden_witness :
  (∃ w', new_Loading (AElem 0) (AObj {["theme" := VStr "dark"]}) shown_page
         = (Ret 1, w')
         ∧ eval (active 1) w' = Ret false
         ∧ fired w' = fired shown_page
         ∧ visibility w' = visibility shown_page ++ [(false, [])])
  ∧ (fired (exec (invoke 0 "resize" []) shown_page) = fired shown_page
     ∧ visibility (exec (invoke 0 "resize" []) shown_page)
       = visibility shown_page)
  ∧ (visibility (exec (start 0) unbound_page) = visibility unbound_page
     ∧ visibility (exec (stop 0) unbound_page) = visibility unbound_page
     ∧ visibility (exec (toggle 0) unbound_page) = visibility unbound_page)
  ∧ toggle 0 shown_page = stop 0 shown_page
  ∧ (eval (initOverlay 0) shown_page = Ret tt
     ∧ fired (exec (initOverlay 0) shown_page) = fired shown_page
     ∧ eval (active 0) (exec (initOverlay 0) shown_page) = Ret false).
Proof.
  destruct constructed_hidden as (H1 & H2 & H3 & H4 & _ & H6).
  pose (i := Instance (Some 1)
               (<["fullPage" := VBool false]>
                  (extend (extend ∅ Loading_defaults) ∅)) (Some 0)).
  assert (Hi : heap shown_page !! 0 = Some i) by (vm_compute; reflexivity).
  assert (Hu : heap unbound_page !! 0 = Some i) by (vm_compute; reflexivity).
  split; [|split; [|split; [|split]]].
  - apply (H1 shown_page 0 (AObj {["theme" := VStr "dark"]})
              {["theme" := VStr "dark"]}).
    reflexivity.
  - destruct (H2 shown_page 0 i "resize" [] Hi) as [Hq _].
    destruct Hq as (Hf & _ & Hv); [vm_compute; exact I|].
    split; [exact Hf|]. apply Hv. intros H. vm_compute in H.
    repeat (apply elem_of_cons in H as [H|H]; [discriminate|]).
    by apply elem_of_nil in H.
  - destruct (H3 unbound_page 0 i 1 Hu eq_refl) as (_ & _ & Ha & Hb & Hc).
    split; [apply Ha; vm_compute; reflexivity|].
    split; [apply Hb; vm_compute; reflexivity|].
    apply Hc; vm_compute; reflexivity.
  - rewrite (H4 shown_page 0 1 0 shown_node shown_page_attached).
    vm_compute. reflexivity.
  - apply (H6 shown_page 0 i 1 Hi eq_refl).
Defined.

(** * Further properties of the plugin *)

(** ** The examples *)

Lemma hidden_page_attached : attached hidden_page 0 1 0 hidden_node.
Proof. eexists. vm_compute. repeat split; reflexivity. Qed.

Lemma hidden_page_start_handlers :
  handlers_for hidden_page LoadingStart 1 = [HSettings 0 "onStart"].
Proof. vm_compute. reflexivity. Qed.

Lemma hidden_page_stop_handlers :
  handlers_for hidden_page LoadingStop 1 = [HSettings 0 "onStop"].
Proof. vm_compute. reflexivity. Qed.

Lemma hidden_page_default_handlers : default_handlers hidden_page 1.
Proof.
  unfold default_handlers.
  rewrite hidden_page_start_handlers, hidden_page_stop_handlers.
  repeat split; try discriminate; repeat constructor; eexists; vm_compute;
    split; reflexivity.
Qed.

Lemma shown_page_instance :
  heap shown_page !! 0
  = Some (Instance (Some 1)
            (<["fullPage" := VBool false]>
               (extend (extend ∅ Loading_defaults) ∅)) (Some 0)).
Proof. vm_compute. reflexivity. Qed.

(** ** [start], [stop] and [toggle] with handlers that fade *)

Lemma start_spec w self e n x ms :
  attached w self e n x →
  Forall (fades (heap w) FadeIn ms) (handlers_for w LoadingStart e) →
  start self w
  = (Ret tt,
     with_nodes
       (<[n := Nat.iter (length (handlers_for w LoadingStart e))
                 (faded FadeIn ms) x]> (nodes w))
       (with_fired (fired w ++ [(e, LoadingStart, PInst self)]) w)).
Proof.
  intros (i & Hi & He & Hn & Hx) Hf. unfold start.
  erewrite bind_Ret by (by eapply jq_spec). by eapply trigger_fades.
Qed.

Lemma stop_spec w self e n x ms :
  attached w self e n x →
  Forall (fades (heap w) FadeOut ms) (handlers_for w LoadingStop e) →
  stop self w
  = (Ret tt,
     with_nodes
       (<[n := Nat.iter (length (handlers_for w LoadingStop e))
                 (faded FadeOut ms) x]> (nodes w))
       (with_fired (fired w ++ [(e, LoadingStop, PInst self)]) w)).
Proof.
  intros (i & Hi & He & Hn & Hx) Hf. unfold stop.
  erewrite bind_Ret by (by eapply jq_spec). by eapply trigger_fades.
Qed.

(** X1.  [toggle()] fires exactly one notification on the target element,
    with the plugin object as payload: [loading.stop] when the overlay is
    visible, [loading.start] when it is not. *)
Theorem toggle_notification w self e n x :
  attached w self e n x →
  fired (exec (toggle self) w)
  = fired w ++ [(e, if displayed x && layout w n (box x)
                    then LoadingStop else LoadingStart,
                 PInst self)].
Proof.
  intros Ha. pose proof Ha as (i & Hi & He & Hn & Hx).
  unfold exec. rewrite (toggle_spec w self e n x Ha). unfold is_visible.
  destruct (displayed x && layout w n (box x)).
  - by apply (stop_fired w self i e).
  - by apply (start_fired w self i e).
Qed.

Lemma toggle_notification_witness :
  fired (exec (toggle 0) shown_page)
  = fired shown_page ++ [(1, LoadingStop, PInst 0)]
  ∧ fired (exec (toggle 0) hidden_page)
    = fired hidden_page ++ [(1, LoadingStart, PInst 0)].
Proof.
  split.
  - rewrite (toggle_notification shown_page 0 1 0 shown_node
               shown_page_attached).
    vm_compute. reflexivity.
  - rewrite (toggle_notification hidden_page 0 1 0 hidden_node
               hidden_page_attached).
    vm_compute. reflexivity.
Defined.



(** X3.  Starting what is shown and stopping what is hidden change no
    overlay: with handlers that fade, [start()] on an overlay that is
    displayed and at rest, and [stop()] on one that is hidden and at rest,
    leave every overlay as it was (the notification is fired all the
    same). *)
Theorem start_stop_at_rest w self e n x ms :
  attached w self e n x → fx x = [] →
  (displayed x = true →
   Forall (fades (heap w) FadeIn ms) (handlers_for w LoadingStart e) →
   eval (start self) w = Ret tt ∧ nodes (exec (start self) w) = nodes w)
  ∧ (displayed x = false →
     Forall (fades (heap w) FadeOut ms) (handlers_for w LoadingStop e) →
     eval (stop self) w = Ret tt ∧ nodes (exec (stop self) w) = nodes w).
Proof.
  intros Ha Hq. pose proof Ha as (i & Hi & He & Hn & Hx).
  split; intros Hd Hf; unfold eval, exec.
  - rewrite (start_spec w self e n x ms Ha Hf). cbn [fst snd].
    split; [reflexivity|]. fields.
    rewrite (faded_at_rest FadeIn) by done. by apply list_insert_id.
  - rewrite (stop_spec w self e n x ms Ha Hf). cbn [fst snd].
    split; [reflexivity|]. fields.
    rewrite (faded_at_rest FadeOut) by done. by apply list_insert_id.
Qed.

Lemma start_stop_at_rest_witness :
  (eval (start 0) shown_page = Ret tt
   ∧ nodes (exec (start 0) shown_page) = nodes shown_page)
  ∧ (eval (stop 0) hidden_page = Ret tt
     ∧ nodes (exec (stop 0) hidden_page) = nodes hidden_page).
Proof.
  split.
  - apply (proj1 (start_stop_at_rest shown_page 0 1 0 shown_node 150
                    shown_page_attached eq_refl)); [reflexivity|].
    apply shown_page_default_handlers.
  - apply (proj2 (start_stop_at_rest hidden_page 0 1 0 hidden_node 150
                    hidden_page_attached eq_refl)); [reflexivity|].
    apply hidden_page_default_handlers.
Defined.

(** ** Settings *)

Lemma prop_over (a b : object) k :
  prop (extend (extend ∅ a) b) k = over b k (prop a k).
Proof. apply prop_merged. Qed.

Lemma over_empty k d : over ∅ k d = d.
Proof. unfold over. by rewrite lookup_empty. Qed.

Lemma options_entries w self i o p :
  heap w !! self = Some i → entries o = Some p →
  options self o w
  = (Ret tt,
     with_heap (<[self := with_settings (extend (extend ∅ (settings i)) p) i]>
                  (heap w)) w).
Proof.
  intros Hi Ho. unfold options, merged. rewrite Ho. run. rewrite Hi. run.
  by rewrite Hi.
Qed.

Lemma options_keeps_surroundings self o : keeps surroundings (options self o).
Proof. keeps_tac ltac:(unfold surroundings; fields; reflexivity). Qed.

Lemma options_keeps_others self o j :
  j ≠ self → keeps (λ w, heap w !! j) (options self o).
Proof.
  intros Hj.
  keeps_tac ltac:(fields; try reflexivity; by rewrite list_lookup_insert_ne).
Qed.

Lemma options_keeps_links self o :
  keeps (λ w, (element <$> heap w !! self, overlay <$> heap w !! self))
        (options self o).
Proof.
  keeps_tac ltac:(fields; try reflexivity;
    match goal with
    | H : heap _ !! _ = Some _ |- _ =>
        rewrite list_lookup_insert_eq by (by eapply lookup_lt_Some);
        rewrite H; reflexivity
    end).
Qed.

(** X4.  [options] changes the settings of its plugin object and nothing
    else: the other plugin objects, the target element and the overlay of
    this one, the overlays with their click handlers, the bound handlers,
    the defaults and the stored objects are as before, whatever the
    argument. *)
Theorem options_only_settings w self o :
  let w' := exec (options self o) w in
  surroundings w' = surroundings w
  ∧ (∀ j, j ≠ self → heap w' !! j = heap w !! j)
  ∧ element <$> heap w' !! self = element <$> heap w !! self
  ∧ overlay <$> heap w' !! self = overlay <$> heap w !! self.
Proof.
  intros w'. subst w'. split; [apply options_keeps_surroundings|].
  split; [intros j Hj; by apply (options_keeps_others self o j)|].
  pose proof (options_keeps_links self o w) as H. by injection H.
Qed.

(** X5.  Calls of [options] accumulate: after [options(p1)] and
    [options(p2)] a key reads as the value of [p2], else as the value of
    [p1], else as before, a value [undefined] counting as none.  A call
    without argument leaves every key as it read. *)
Theorem options_compose w self i o1 o2 p1 p2 :
  heap w !! self = Some i → entries o1 = Some p1 → entries o2 = Some p2 →
  (∃ i', heap (exec (options self o2) (exec (options self o1) w)) !! self
         = Some i'
         ∧ ∀ k, prop (settings i') k
                = over p2 k (over p1 k (prop (settings i) k)))
  ∧ (∃ i', heap (exec (options self AUndefined) w) !! self = Some i'
           ∧ ∀ k, prop (settings i') k = prop (settings i) k).
Proof.
  intros Hi H1 H2.
  assert (Hlt : self < length (heap w)) by (by eapply lookup_lt_Some).
  split.
  - unfold exec. rewrite (options_entries w self i o1 p1 Hi H1). cbn [snd].
    erewrite options_entries;
      [| fields; by apply list_lookup_insert_eq | exact H2].
    fields. eexists. split.
    + apply list_lookup_insert_eq. by rewrite length_insert.
    + intros k. fields. by rewrite !prop_over.
  - unfold exec. rewrite (options_entries w self i AUndefined ∅ Hi eq_refl).
    fields. eexists. split; [by apply list_lookup_insert_eq|].
    intros k. fields. by rewrite prop_over, over_empty.
Qed.

Lemma options_compose_witness :
  (∃ i', heap (exec (options 0 (AObj {["message" := VUndefined]}))
                 (exec (options 0 (AObj {["message" := VStr "Wait"]}))
                       shown_page)) !! 0 = Some i'
         ∧ prop (settings i') "message" = VStr "Wait"
         ∧ prop (settings i') "theme" = VStr "light")
  ∧ (∃ i', heap (exec (options 0 AUndefined) shown_page) !! 0 = Some i'
           ∧ prop (settings i') "message" = VStr "Loading...").
Proof.
  destruct (options_compose shown_page 0 _
              (AObj {["message" := VStr "Wait"]})
              (AObj {["message" := VUndefined]})
              {["message" := VStr "Wait"]} {["message" := VUndefined]}
              shown_page_instance eq_refl eq_refl)
    as [(i1 & Hi1 & Hk1) (i2 & Hi2 & Hk2)].
  split.
  - exists i1. split; [exact Hi1|]. split.
    + rewrite (Hk1 "message"). vm_compute. reflexivity.
    + rewrite (Hk1 "theme"). vm_compute. reflexivity.
  - exists i2. split; [exact Hi2|]. rewrite (Hk2 "message").
    vm_compute. reflexivity.
Defined.

(** X6.  Whether a click stops is fixed when the plugin object is
    constructed: on an overlay wired without the stopping handler, a click
    fires [loading.click] and no [loading.stop], even after [options] has
    set [stoppable], or anything else. *)
Theorem stoppable_fixed_at_attach w self e n x o :
  attached w self e n x → click x = clicks self false →
  ∃ p, fired (exec (click_overlay n) (exec (options self o) w))
       = fired w ++ [(e, LoadingClick, p)].
Proof.
  intros (i & Hi & He & Hn & Hx) Hc.
  pose proof (options_keeps_surroundings self o w) as Hs.
  pose proof (options_keeps_links self o w) as Hl.
  injection Hl as Hel Hov.
  fold (exec (options self o) w) in Hs, Hel, Hov.
  set (w' := exec (options self o) w) in *.
  unfold surroundings in Hs. injection Hs as _ _ _ _ Hnodes _ _ _ _ Hfired _.
  rewrite Hi in Hel, Hov. simpl in Hel, Hov.
  destruct (heap w' !! self) as [i'|] eqn:Hi'; [|discriminate].
  simpl in Hel, Hov. injection Hel as Hel. injection Hov as Hov.
  assert (Ha : attached w' self e n x).
  { exists i'. rewrite Hnodes. repeat split; congruence. }
  exists (PNode n).
  rewrite (click_fired w' self e n x false Ha Hc); [|discriminate].
  by rewrite Hfired.
Qed.

Lemma stoppable_fixed_at_attach_witness :
  ∃ p, fired (exec (click_overlay 0)
                (exec (options 0 (AObj {["stoppable" := VBool true]}))
                      shown_page))
       = fired shown_page ++ [(1, LoadingClick, p)].
Proof.
  apply (stoppable_fixed_at_attach shown_page 0 1 0 shown_node).
  - apply shown_page_attached.
  - reflexivity.
Defined.

(** X7.  The hooks are read when the notification is handled: after
    [options] has replaced [onStop] by a function, [stop()] fires
    [loading.stop] and calls that function with the plugin object, on an
    element whose only stop handler is the one the plugin bound. *)
Theorem hooks_are_live w self i e p f :
  heap w !! self = Some i → element i = Some e →
  handlers_for w LoadingStop e = [HSettings self "onStop"] →
  p !! "onStop" = Some (VFun f) →
  let w1 := exec (options self (AObj p)) w in
  stop self w1
  = run_callback f (PInst self)
      (with_fired (fired w1 ++ [(e, LoadingStop, PInst self)]) w1).
Proof.
  intros Hi He Hh Hp w1. subst w1. unfold exec.
  rewrite (options_entries w self i (AObj p) p Hi eq_refl). cbn [snd].
  assert (Hlt : self < length (heap w)) by (by eapply lookup_lt_Some).
  unfold stop. erewrite bind_Ret.
  2:{ eapply jq_spec; fields; [by apply list_lookup_insert_eq| exact He]. }
  unfold trigger. run.
  match goal with
  | |- context [handlers_for ?v LoadingStop e] =>
      change (handlers_for v LoadingStop e) with (handlers_for w LoadingStop e)
  end.
  rewrite Hh. rewrite for_each_one. unfold run_handler. run.
  rewrite list_lookup_insert_eq by done. run. fields.
  rewrite prop_over. unfold over. rewrite Hp. simpl. reflexivity.
Qed.

Lemma hooks_are_live_witness :
  let w1 := exec (options 0 (AObj {["onStop" := VFun CbHide]})) shown_page in
  eval (stop 0) w1 = Ret tt
  ∧ eval (active 0) (exec (stop 0) w1) = Ret false.
Proof.
  intros w1.
  assert (Hp : ({["onStop" := VFun CbHide]} : object) !! "onStop"
               = Some (VFun CbHide)) by (vm_compute; reflexivity).
  assert (H : stop 0 w1
              = run_callback CbHide (PInst 0)
                  (with_fired (fired w1 ++ [(1, LoadingStop, PInst 0)]) w1)).
  { apply (hooks_are_live shown_page 0 _ 1 {["onStop" := VFun CbHide]}
             CbHide shown_page_instance eq_refl
             shown_page_stop_handlers Hp). }
  change (eval (stop 0) w1) with (stop 0 w1).1.
  change (exec (stop 0) w1) with (stop 0 w1).2.
  rewrite H. vm_compute. split; reflexivity.
Defined.

Lemma setDefaults_spec w d p :
  entries d = Some p →
  setDefaults d w
  = (Ret tt, with_defaults (extend (extend ∅ (defaults w)) p) w).
Proof. intros Hd. unfold setDefaults, merged. rewrite Hd. reflexivity. Qed.

(** X8.  [Loading.setDefaults] acts on the plugin objects constructed
    after it and on no other: the existing ones are as before, and in a
    new one a key other than [fullPage] reads as the value of the options
    passed, else as the value given to [setDefaults], else as the previous
    default, a value [undefined] counting as none. *)
Theorem setDefaults_precedence w d p e o ents :
  entries d = Some p → entries o = Some ents →
  let w1 := exec (setDefaults d) w in
  eval (setDefaults d) w = Ret tt
  ∧ heap w1 = heap w ∧ nodes w1 = nodes w ∧ bound w1 = bound w
  ∧ ∃ i, heap (exec (new_Loading (AElem e) o) w1) !! length (heap w) = Some i
      ∧ ∀ k, k ≠ "fullPage" →
             prop (settings i) k
             = over ents k (over p k (prop (defaults w) k)).
Proof.
  intros Hd Ho w1. subst w1. unfold eval, exec.
  rewrite (setDefaults_spec w d p Hd). cbn [fst snd].
  repeat split.
  rewrite (new_Loading_spec _ e o ents Ho). unfold constructed. fields.
  eexists. split; [apply lookup_snoc|]. intros k Hk. fields.
  unfold constructed_settings. fields.
  rewrite prop_insert_ne by done. by rewrite !prop_over.
Qed.

Lemma setDefaults_precedence_witness :
  let w1 := exec (setDefaults (AObj {["theme" := VStr "dark"]})) shown_page in
  heap w1 = heap shown_page
  ∧ ∃ i, heap (exec (new_Loading (AElem 0)
                       (AObj {["message" := VStr "Wait"]})) w1) !! 1 = Some i
      ∧ prop (settings i) "theme" = VStr "dark"
      ∧ prop (settings i) "message" = VStr "Wait"
      ∧ prop (settings i) "stoppable" = VBool false.
Proof.
  destruct (setDefaults_precedence shown_page
              (AObj {["theme" := VStr "dark"]}) {["theme" := VStr "dark"]}
              0 (AObj {["message" := VStr "Wait"]})
              {["message" := VStr "Wait"]} eq_refl eq_refl)
    as (_ & Hh & _ & _ & i & Hi & Hk).
  split; [exact Hh|]. exists i. split; [exact Hi|].
  split; [|split].
  - rewrite (Hk "theme") by discriminate. vm_compute. reflexivity.
  - rewrite (Hk "message") by discriminate. vm_compute. reflexivity.
  - rewrite (Hk "stoppable") by discriminate. vm_compute. reflexivity.
Defined.

(** ** The first call on an element *)

(** On an element that holds no plugin object, [$.fn.loading] constructs
    one from its first argument, stores it, and dispatches. *)
Lemma loading_fresh w e o args ents :
  data w !! e = None → entries o = Some ents →
  loading [e] o args w
  = match o with
    | AStr name => invoke (length (heap w)) name args
    | _ => start (length (heap w))
    end (with_data (<[e := length (heap w)]> (data w)) (constructed w e ents)).
Proof.
  intros Hd Ho. unfold loading. rewrite for_each_one.
  unfold loading_each, bind at 1, gets. simpl. rewrite Hd.
  unfold bind at 1. unfold bind at 1.
  rewrite (new_Loading_spec w e o ents Ho). reflexivity.
Qed.

(** X9.  The first call on an element, with options that are no method
    name, attaches and starts: afterwards the element holds a new plugin
    object, one overlay has been put first in the body, and
    [loading.start] has been fired once on the element with the new
    object, whatever the handlers do. *)
Theorem first_attach_starts w e o ents args :
  data w !! e = None → entries o = Some ents → (∀ name, o ≠ AStr name) →
  let l := length (heap w) in
  let w' := exec (loading [e] o args) w in
  data w' = <[e := l]> (data w)
  ∧ length (heap w') = S l
  ∧ body w' = length (nodes w) :: body w
  ∧ length (nodes w') = S (length (nodes w))
  ∧ fired w' = fired w ++ [(e, LoadingStart, PInst l)].
Proof.
  intros Hd Ho Hs l w'. subst l w'. unfold exec.
  rewrite (loading_fresh w e o args ents Hd Ho).
  set (w0 := with_data _ _).
  assert (E : match o with
              | AStr name => invoke (length (heap w)) name args
              | _ => start (length (heap w))
              end w0 = start (length (heap w)) w0).
  { destruct o; try reflexivity. by destruct (Hs s). }
  rewrite E.
  pose proof (start_keeps_identity (length (heap w)) w0) as Hi.
  pose proof (start_keeps_overlays (length (heap w)) w0) as Hv.
  unfold identity in Hi. unfold overlays in Hv.
  injection Hi as Hi1 Hi2. injection Hv as Hv1 Hv2.
  split; [exact Hi1|]. split.
  { rewrite Hi2. subst w0. unfold constructed. fields.
    rewrite length_app. simpl. lia. }
  split; [exact Hv1|]. split.
  { rewrite Hv2. subst w0. unfold constructed. fields.
    rewrite length_app. simpl. lia. }
  pose proof (start_fired w0 (length (heap w))
                (Instance (Some e) (constructed_settings w e ents)
                          (Some (length (nodes w)))) e) as Hf.
  unfold exec in Hf. apply Hf; [|reflexivity].
  subst w0. unfold constructed. fields. apply lookup_snoc.
Qed.

Lemma first_attach_starts_witness :
  let w' := exec (loading [1] (AObj {["theme" := VStr "dark"]}) [])
                 (fresh test_page) in
  data w' = {[1 := 0]}
  ∧ length (heap w') = 1
  ∧ body w' = [0]
  ∧ fired w' = [(1, LoadingStart, PInst 0)].
Proof.
  assert (Hd : data (fresh test_page) !! 1 = None) by (vm_compute; reflexivity).
  destruct (first_attach_starts (fresh test_page) 1
              (AObj {["theme" := VStr "dark"]}) {["theme" := VStr "dark"]} []
              Hd eq_refl)
    as (H1 & H2 & H3 & _ & H5).
  - intros name. discriminate.
  - split; [rewrite H1; vm_compute; reflexivity|].
    split; [exact H2|]. split; [exact H3|exact H5].
Defined.

(** X10.  A first call that names nothing callable fails after it has
    attached: the call throws a [TypeError], and the element holds a new
    plugin object, constructed from the characters of the name as
    options, with its overlay hidden; no notification has been fired. *)
Theorem failed_first_call w e name args :
  data w !! e = None → (∀ i, member_of i name = None) →
  loading [e] (AStr name) args w
  = (Throw TypeError,
     with_data (<[e := length (heap w)]> (data w))
       (constructed w e (string_entries name))).
Proof.
  intros Hd Hm.
  rewrite (loading_fresh w e (AStr name) args (string_entries name) Hd eq_refl).
  unfold invoke, constructed. run. rewrite lookup_snoc. run.
  by rewrite Hm.
Qed.

Lemma failed_first_call_witness :
  let r := loading [1] (AStr "finish") [] (fresh test_page) in
  r.1 = Throw TypeError
  ∧ data r.2 !! 1 = Some 0
  ∧ fired r.2 = []
  ∧ visibility r.2 = [(false, [])]
  ∧ eval (expr_loading 1) r.2 = Ret false.
Proof.
  assert (Hd : data (fresh test_page) !! 1 = None) by (vm_compute; reflexivity).
  assert (Hm : ∀ i, member_of i "finish" = None)
    by (intros i; vm_compute; reflexivity).
  intros r. subst r.
  rewrite (failed_first_call (fresh test_page) 1 "finish" [] Hd Hm).
  vm_compute. repeat split; reflexivity.
Defined.

(** ** One plugin object among others *)

Lemma faded_click k ms c x : click (Nat.iter c (faded k ms) x) = click x.
Proof. induction c as [|c IH]; [reflexivity|]. simpl. exact IH. Qed.

(** X11.  With the default handlers, [start()] and [stop()] act on the
    overlay of their plugin object alone, also when the notification
    reaches handlers bound by other plugin objects on ancestors of the
    element: the plugin objects, the body and every other overlay are as
    before, and the overlay itself keeps its box and its click
    handlers. *)
Theorem start_stop_local w self e n x w' :
  attached w self e n x → default_handlers w e →
  w' = exec (start self) w ∨ w' = exec (stop self) w →
  heap w' = heap w ∧ body w' = body w
  ∧ length (nodes w') = length (nodes w)
  ∧ (∀ m, m ≠ n → nodes w' !! m = nodes w !! m)
  ∧ ∃ y, nodes w' !! n = Some y ∧ box y = box x ∧ click y = click x.
Proof.
  intros Ha (Hs1 & Hs2 & Hp1 & Hp2) Hw.
  pose proof Ha as (i & Hi & He & Hn & Hx).
  assert (Hlt : n < length (nodes w)) by (by eapply lookup_lt_Some).
  destruct Hw as [-> | ->]; unfold exec.
  - rewrite (start_spec w self e n x 150 Ha Hs2). cbn [snd]. fields.
    repeat split; try done.
    + by rewrite length_insert.
    + intros m Hm. by rewrite list_lookup_insert_ne.
    + eexists. split; [by apply list_lookup_insert_eq|].
      by rewrite faded_box, faded_click.
  - rewrite (stop_spec w self e n x 150 Ha Hp2). cbn [snd]. fields.
    repeat split; try done.
    + by rewrite length_insert.
    + intros m Hm. by rewrite list_lookup_insert_ne.
    + eexists. split; [by apply list_lookup_insert_eq|].
      by rewrite faded_box, faded_click.
Qed.

Lemma two_page_attached : attached two_page 0 1 0 two_node_div.
Proof. eexists. vm_compute. repeat split; reflexivity. Qed.

Lemma two_page_start_handlers :
  handlers_for two_page LoadingStart 1
  = [HSettings 0 "onStart"; HSettings 1 "onStart"].
Proof. vm_compute. reflexivity. Qed.

Lemma two_page_stop_handlers :
  handlers_for two_page LoadingStop 1
  = [HSettings 0 "onStop"; HSettings 1 "onStop"].
Proof. vm_compute. reflexivity. Qed.

Lemma two_page_default_handlers : default_handlers two_page 1.
Proof.
  unfold default_handlers.
  rewrite two_page_start_handlers, two_page_stop_handlers.
  repeat split; try discriminate;
    repeat (apply Forall_cons; split); try (by apply Forall_nil);
    eexists; vm_compute; split; reflexivity.
Qed.

Lemma start_stop_local_witness :
  handlers_for two_page LoadingStop 1
  = [HSettings 0 "onStop"; HSettings 1 "onStop"]
  ∧ nodes (exec (stop 0) two_page) !! 1 = nodes two_page !! 1
  ∧ heap (exec (stop 0) two_page) = heap two_page.
Proof.
  destruct (start_stop_local two_page 0 1 0 two_node_div
              (exec (stop 0) two_page) two_page_attached
              two_page_default_handlers (or_intror eq_refl))
    as (H1 & _ & _ & H4 & _).
  split; [exact two_page_stop_handlers|].
  split; [apply H4; discriminate | exact H1].
Defined.

(** ** The overlay element *)

(** X12.  The overlay construction makes: it is fixed and fills the
    window exactly when the target element is the body, whatever the
    options say of [fullPage], and is absolute with the offset and the
    outer size of the element otherwise; its theme and its message are
    those of the options, else the defaults; its id is the id of the
    element followed by [_loading-overlay], when the element has one that
    is not empty; it is the new node of the page and hidden. *)
Theorem overlay_markup w e o ents :
  entries o = Some ents →
  let el := page w e in
  ∃ x, nodes (exec (new_Loading (AElem e) o) w) !! length (nodes w) = Some x
     ∧ position x = (if is_body el then Fixed else Absolute)
     ∧ box x = Some (Geometry (offset_top el) (offset_left el)
                       (if is_body el then Full else Px (outerWidth el))
                       (if is_body el then Full else Px (outerHeight el)))
     ∧ theme x = over ents "theme" (prop (defaults w) "theme")
     ∧ message x = over ents "message" (prop (defaults w) "message")
     ∧ html_id x = match attr_id el with
                   | Some i => if String.eqb i "" then None
                               else Some (i +:+ "_loading-overlay")
                   | None => None
                   end
     ∧ displayed x = false ∧ fx x = [].
Proof.
  intros Ho el. unfold exec. rewrite (new_Loading_spec w e o ents Ho).
  cbn [snd]. unfold constructed. fields.
  exists (constructed_node w e ents). split; [apply lookup_snoc|].
  unfold constructed_node, resized, constructed_settings. fields.
  rewrite prop_insert, truthy_VBool.
  rewrite !prop_insert_ne by done. rewrite !prop_over.
  subst el. repeat split; try (by destruct (is_body (page w e))).
  destruct (attr_id (page w e)) as [i|]; [|done]. unfold truthy.
  by destruct (String.eqb i "").
Qed.

Lemma overlay_markup_witness :
  ∃ x, nodes (exec (new_Loading (AElem 0)
                      (AObj (<["fullPage" := VBool false]>
                               {["theme" := VStr "dark"]})))
                   (fresh test_page)) !! 0 = Some x
     ∧ position x = Fixed
     ∧ box x = Some (Geometry 0 0 Full Full)
     ∧ theme x = VStr "dark"
     ∧ message x = VStr "Loading..."
     ∧ html_id x = None.
Proof.
  destruct (overlay_markup (fresh test_page) 0
              (AObj (<["fullPage" := VBool false]> {["theme" := VStr "dark"]}))
              (<["fullPage" := VBool false]> {["theme" := VStr "dark"]})
              eq_refl)
    as (x & H1 & H2 & H3 & H4 & H5 & H6 & _).
  exists x. split; [exact H1|]. split; [exact H2|]. split; [exact H3|].
  split; [rewrite H4; vm_compute; reflexivity|].
  split; [rewrite H5; vm_compute; reflexivity|exact H6].
Defined.
